(** * Verification of the IRC line parser of [loirc] ([src/message.rs])

    Shallow embedding of [Message::parse] and [parse_prefix].  Lines are
    byte strings ([String.string]).  The blank check decodes the UTF-8 of
    the line and tests [char::is_whitespace] (Unicode [White_Space]).  Every
    string slice of the Rust code is embedded with its checks: an index out
    of range, or one that is not a character boundary, is the outcome
    [Panic].  The boundary check is a parameter ([Slicing]): the theorems
    are stated for byte strings, where only the bounds matter, and
    [parse_str_bytes] shows that on valid UTF-8, the only input a [str] can
    hold, the [str] semantics gives the same results.  The [loop] over the
    arguments runs on a fuel bound; exhausting it is the outcome
    [Diverge]. *)

From Stdlib Require Import String Ascii List Bool Arith NArith Lia.
Import ListNotations.
Open Scope string_scope.
Open Scope nat_scope.
Open Scope list_scope.

(** ** Errors and outcomes *)

(** [enum ParseError] *)
Inductive ParseError : Type :=
| EmptyCommand
| EmptyMessage
| UnexpectedEnd.

(** What a Rust computation of type [Result<A, ParseError>] can do:
    return, fail with a [ParseError], panic, or not terminate. *)
Inductive Outcome (A : Type) : Type :=
| Ok (a : A)
| Err (e : ParseError)
| Panic
| Diverge.

Arguments Ok {A} a.
Arguments Err {A} e.
Arguments Panic {A}.
Arguments Diverge {A}.

Definition bind {A B : Type} (m : Outcome A) (k : A -> Outcome B) : Outcome B :=
  match m with
  | Ok a => k a
  | Err e => Err e
  | Panic => Panic
  | Diverge => Diverge
  end.

Notation "'let?' x ':=' m 'in' k" := (bind m (fun x => k))
  (at level 200, x pattern, m at level 100, k at level 200).

(** ** String operations of [str] used by the parser *)

(** [s.find(c)] for a one-character pattern: byte index of the first [c]. *)
Fixpoint find (c : ascii) (s : string) : option nat :=
  match s with
  | EmptyString => None
  | String c' s' =>
      if Ascii.eqb c c' then Some 0
      else match find c s' with
           | Some i => Some (S i)
           | None => None
           end
  end.

(** [s.starts_with(c)] for a one-character pattern. *)
Definition starts_with (c : ascii) (s : string) : bool :=
  match s with
  | EmptyString => false
  | String c' _ => Ascii.eqb c c'
  end.

(** *** UTF-8 *)

Definition byte_val (b : ascii) : N := N_of_ascii b.

Definition is_ascii_byte (b : ascii) : bool := (byte_val b <? 128)%N.

(** A continuation byte [0b10xxxxxx]. *)
Definition is_cont (b : ascii) : bool :=
  (128 <=? byte_val b)%N && (byte_val b <? 192)%N.

(** [str::is_char_boundary]: index [0], the length, or an index whose byte
    is not a continuation byte ([bytes[index] as i8 >= -0x40]). *)
Definition is_char_boundary (s : string) (i : nat) : bool :=
  if i =? 0 then true
  else match String.get i s with
       | None => i =? String.length s
       | Some b => negb (is_cont b)
       end.

(** Where a slice may start or end.  Slicing a Rust [str] panics unless both
    ends are character boundaries ([str_slicing]); on byte strings only the
    bounds are checked ([byte_slicing]). *)
Class Slicing : Type := { char_boundary : string -> nat -> bool }.

#[export] Instance byte_slicing : Slicing := {| char_boundary := fun _ _ => true |}.

Definition str_slicing : Slicing := {| char_boundary := is_char_boundary |}.

(** [&s[i..]]: panics when [i > s.len()] or [i] is not a boundary. *)
Definition slice_from {SL : Slicing} (s : string) (i : nat) : Outcome string :=
  if (i <=? String.length s) && char_boundary s i
  then Ok (substring i (String.length s - i) s)
  else Panic.

(** [&s[..j]]: panics when [j > s.len()] or [j] is not a boundary. *)
Definition slice_to {SL : Slicing} (s : string) (j : nat) : Outcome string :=
  if (j <=? String.length s) && char_boundary s j then Ok (substring 0 j s) else Panic.

(** [&s[i..j]]: panics when [i > j], [j > s.len()], or an end is not a
    boundary. *)
Definition slice {SL : Slicing} (s : string) (i j : nat) : Outcome string :=
  if (i <=? j) && (j <=? String.length s) && char_boundary s i && char_boundary s j
  then Ok (substring i (j - i) s)
  else Panic.

(** The UTF-8 decoding of the bytes of a string into Unicode scalar values
    ([str::chars] on valid UTF-8, the bytes of every [str]).  On other
    bytes, a stray continuation byte, or a lead byte without enough
    continuation bytes after it, decodes to U+FFFD and decoding resumes at
    the next byte. *)
Definition replacement : N := 65533.

Definition cp2 (b0 b1 : ascii) : N :=
  N.lor (N.shiftl (N.land (byte_val b0) 31) 6) (N.land (byte_val b1) 63).

Definition cp3 (b0 b1 b2 : ascii) : N :=
  N.lor (N.shiftl (N.land (byte_val b0) 15) 12)
    (N.lor (N.shiftl (N.land (byte_val b1) 63) 6) (N.land (byte_val b2) 63)).

Definition cp4 (b0 b1 b2 b3 : ascii) : N :=
  N.lor (N.shiftl (N.land (byte_val b0) 7) 18)
    (N.lor (N.shiftl (N.land (byte_val b1) 63) 12)
      (N.lor (N.shiftl (N.land (byte_val b2) 63) 6) (N.land (byte_val b3) 63))).

Fixpoint decode (s : string) : list N :=
  match s with
  | EmptyString => []
  | String b r =>
      if (byte_val b <? 128)%N then byte_val b :: decode r
      else if (byte_val b <? 192)%N then replacement :: decode r
      else if (byte_val b <? 224)%N then
        match r with
        | String c1 r1 =>
            if is_cont c1 then cp2 b c1 :: decode r1 else replacement :: decode r
        | EmptyString => replacement :: decode r
        end
      else if (byte_val b <? 240)%N then
        match r with
        | String c1 (String c2 r2) =>
            if is_cont c1 && is_cont c2 then cp3 b c1 c2 :: decode r2
            else replacement :: decode r
        | _ => replacement :: decode r
        end
      else if (byte_val b <? 248)%N then
        match r with
        | String c1 (String c2 (String c3 r3)) =>
            if is_cont c1 && is_cont c2 && is_cont c3 then cp4 b c1 c2 c3 :: decode r3
            else replacement :: decode r
        | _ => replacement :: decode r
        end
      else replacement :: decode r
  end.

(** The UTF-8 encoding of one scalar value. *)
Definition encode_char (c : N) : string :=
  if (c <? 128)%N then String (ascii_of_N c) EmptyString
  else if (c <? 2048)%N then
    String (ascii_of_N (N.lor 192 (N.shiftr c 6)))
      (String (ascii_of_N (N.lor 128 (N.land c 63))) EmptyString)
  else if (c <? 65536)%N then
    String (ascii_of_N (N.lor 224 (N.shiftr c 12)))
      (String (ascii_of_N (N.lor 128 (N.land (N.shiftr c 6) 63)))
        (String (ascii_of_N (N.lor 128 (N.land c 63))) EmptyString))
  else
    String (ascii_of_N (N.lor 240 (N.shiftr c 18)))
      (String (ascii_of_N (N.lor 128 (N.land (N.shiftr c 12) 63)))
        (String (ascii_of_N (N.lor 128 (N.land (N.shiftr c 6) 63)))
          (String (ascii_of_N (N.lor 128 (N.land c 63))) EmptyString))).

Fixpoint encode (l : list N) : string :=
  match l with
  | [] => EmptyString
  | c :: l' => append (encode_char c) (encode l')
  end.

(** [char::is_whitespace]: the Unicode [White_Space] property, U+0009 to
    U+000D, U+0020, U+0085, U+00A0, U+1680, U+2000 to U+200A, U+2028,
    U+2029, U+202F, U+205F and U+3000. *)
Definition is_whitespace (c : N) : bool :=
  (((9 <=? c) && (c <=? 13)) || (c =? 32) || (c =? 133) || (c =? 160) ||
   (c =? 5760) || ((8192 <=? c) && (c <=? 8202)) || (c =? 8232) || (c =? 8233) ||
   (c =? 8239) || (c =? 8287) || (c =? 12288))%N.

Fixpoint trim_start_chars (l : list N) : list N :=
  match l with
  | [] => []
  | c :: l' => if is_whitespace c then trim_start_chars l' else l
  end.

(** [s.trim()]: the whitespace characters removed at both ends. *)
Definition trim (s : string) : string :=
  encode (rev (trim_start_chars (rev (trim_start_chars (decode s))))).

(** Well-formed UTF-8 (the invariant of [str], Unicode Table 3-7):
    the byte ranges allowed after each lead byte. *)
Definition in_range (lo hi : N) (b : ascii) : bool :=
  (lo <=? byte_val b)%N && (byte_val b <=? hi)%N.

Definition second3 (b0 b1 : ascii) : bool :=
  if (byte_val b0 =? 224)%N then in_range 160 191 b1
  else if (byte_val b0 =? 237)%N then in_range 128 159 b1
  else is_cont b1.

Definition second4 (b0 b1 : ascii) : bool :=
  if (byte_val b0 =? 240)%N then in_range 144 191 b1
  else if (byte_val b0 =? 244)%N then in_range 128 143 b1
  else is_cont b1.

Fixpoint utf8_valid (s : string) : bool :=
  match s with
  | EmptyString => true
  | String b r =>
      if (byte_val b <? 128)%N then utf8_valid r
      else if in_range 194 223 b then
        match r with
        | String c1 r1 => is_cont c1 && utf8_valid r1
        | EmptyString => false
        end
      else if in_range 224 239 b then
        match r with
        | String c1 (String c2 r2) => second3 b c1 && is_cont c2 && utf8_valid r2
        | _ => false
        end
      else if in_range 240 244 b then
        match r with
        | String c1 (String c2 (String c3 r3)) =>
            second4 b c1 && is_cont c2 && is_cont c3 && utf8_valid r3
        | _ => false
        end
      else false
  end.

(** Removal of the pattern "\r\n" from the end of a reversed line, as
    often as it occurs. *)
Fixpoint trim_crlf_rev (r : list ascii) : list ascii :=
  match r with
  | n :: c :: r' =>
      if Ascii.eqb n "010"%char && Ascii.eqb c "013"%char
      then trim_crlf_rev r' else r
  | _ => r
  end.

(** [s.trim_right_matches("\r\n")]: every trailing repetition of the
    pattern is removed. *)
Definition trim_right_matches_crlf (s : string) : string :=
  string_of_list_ascii (rev (trim_crlf_rev (rev (list_ascii_of_string s)))).

(** ** Data model *)

(** [struct User] *)
Record User : Type := User_new {
  nickname : string;
  username : string;
  hostname : string
}.

(** [enum Prefix]: [Prefix::User] and [Prefix::Server]. *)
Inductive Prefix : Type :=
| PrefixUser (u : User)
| PrefixServer (name : string).

(** [enum Code]: the known commands and replies, here an abstract type [K]
    (the table lives in [code.rs]), and [Code::Unknown(String)]. *)
Inductive Code (K : Type) : Type :=
| Known (k : K)
| Unknown (raw : string).

Arguments Known {K} k.
Arguments Unknown {K} raw.

(** [struct Message] *)
Record Message (K : Type) : Type := mkMessage {
  prefix : option Prefix;
  code : Code K;
  args : list string;
  suffix : option string
}.

Arguments mkMessage {K} prefix code args suffix.
Arguments prefix {K} m.
Arguments code {K} m.
Arguments args {K} m.
Arguments suffix {K} m.

(** ** [fn parse_prefix] *)

Definition parse_prefix {SL : Slicing} (prefix : string) : Outcome (option Prefix) :=
  match find "!" prefix with
  | None => Ok (Some (PrefixServer prefix))
  | Some excpos =>
      let? nick := slice_to prefix excpos in
      let? rest := slice_from prefix (excpos + 1) in
      match find "@" rest with
      | None => Ok None
      | Some atpos =>
          let? user := slice_to rest atpos in
          let? host := slice_from rest (atpos + 1) in
          Ok (Some (PrefixUser (User_new nick user host)))
      end
  end.

(** ** [Message::parse], step by step *)

(** "Look for a prefix" *)
Definition prefix_step {SL : Slicing} (state : string) : Outcome (option Prefix * string) :=
  if starts_with ":" state then
    match find " " state with
    | None => Err UnexpectedEnd
    | Some idx =>
        let? tok := slice state 1 idx in
        let? prefix := parse_prefix tok in
        let? state' := slice_from state (idx + 1) in
        Ok (prefix, state')
    end
  else Ok (None, state).

(** "Look for the command/reply" *)
Definition command_step {SL : Slicing} (state : string) : Outcome (option string * string) :=
  match find " " state with
  | None =>
      if String.length state =? 0 then Err EmptyMessage
      else
        let? state' := slice_from state (String.length state) in
        Ok (Some state, state')
  | Some idx =>
      let? c := slice_to state idx in
      let? state' := slice_from state (idx + 1) in
      Ok (Some c, state')
  end.

(** The [loop] of "Look for arguments and the suffix"; [args] is the
    vector built so far. *)
Fixpoint args_loop {SL : Slicing} (fuel : nat) (state : string) (args : list string)
  : Outcome (list string * option string) :=
  match fuel with
  | 0 => Diverge
  | S fuel' =>
      if starts_with ":" state then
        let? sfx := slice_from state 1 in
        Ok (args, Some sfx)
      else
        match find " " state with
        | None => Ok (args ++ [state], None)
        | Some idx =>
            let? a := slice_to state idx in
            let? state' := slice_from state (idx + 1) in
            args_loop fuel' state' (args ++ [a])
        end
  end.

(** "Look for arguments and the suffix"; every turn of the loop removes
    at least one byte, so [length state + 1] turns suffice. *)
Definition args_step {SL : Slicing} (state : string) : Outcome (list string * option string) :=
  if 0 <? String.length state then args_loop (S (String.length state)) state []
  else Ok ([], None).

Section Parse.

(** [<Code as FromStr>::from_str] of [code.rs]: [None] stands for [Err(_)]. *)
Context {SL : Slicing} {K : Type} (code_from_str : string -> option (Code K)).

(** The final [match code] *)
Definition resolve_code (c : option string) : Outcome (Code K) :=
  match c with
  | None => Err EmptyCommand
  | Some text =>
      match code_from_str text with
      | Some cd => Ok cd
      | None => Ok (Unknown text)
      end
  end.

(** Everything after "Look for a prefix": the command, the arguments and
    the suffix, and the resolution of the code. *)
Definition parse_body (prefix : option Prefix) (state : string) : Outcome (Message K) :=
  let? (c, state) := command_step state in
  let? (args, suffix) := args_step state in
  let? cd := resolve_code c in
  Ok (mkMessage prefix cd args suffix).

(** [Message::parse] *)
Definition parse (line : string) : Outcome (Message K) :=
  if (String.length line =? 0) || (String.length (trim line) =? 0)
  then Err EmptyMessage
  else
    let state := trim_right_matches_crlf line in
    let? (prefix, state) := prefix_step state in
    parse_body prefix state.

End Parse.

(** Modelled from the spec: the conversion of a [Code] back to text, which
    lives in [code.rs] (not among the sources).  The spec says of an unknown
    code that "round-tripping it back to text must reproduce the original
    token exactly"; a known code prints as its table entry [known_text]. *)
Definition code_to_string {K : Type} (known_text : K -> string) (c : Code K) : string :=
  match c with
  | Known k => known_text k
  | Unknown raw => raw
  end.

(** Modelled from the spec: [<Code as FromStr>::from_str] of [code.rs]
    (not among the sources).  The spec's resolver contract: a token that
    matches an entry of a fixed table exactly (case-sensitive, no
    normalization) gives that known code, any other token an [Unknown]
    value wrapping the original token unchanged.  [table] is the exact-match
    lookup; a token it does not match is [Err(_)], which the final [match]
    of [parse] turns into [Code::Unknown(text)]. *)
Definition code_from_table {K : Type} (table : string -> option K) (s : string)
    : option (Code K) :=
  match table s with
  | Some k => Some (Known k)
  | None => None
  end.

(** ** Shapes of lines, used to state the properties *)

(** The two-byte line terminator "\r\n". *)
Definition crlf : string := String "013"%char (String "010"%char EmptyString).

Fixpoint crlf_times (k : nat) : string :=
  match k with
  | 0 => EmptyString
  | S k' => append crlf (crlf_times k')
  end.

(** Plain arguments on the wire, each followed by one space. *)
Fixpoint join_args (l : list string) : string :=
  match l with
  | [] => EmptyString
  | a :: l' => append a (String " " (join_args l'))
  end.

(** A plain argument: no space inside, and not taken for the trailing token. *)
Definition plain_arg (a : string) : Prop :=
  find " " a = None /\ starts_with ":" a = false.

(** The optional [:prefix ] part of a line. *)
Definition prefix_text (p : option string) : string :=
  match p with
  | None => EmptyString
  | Some t => String ":" (append t (String " " EmptyString))
  end.

(** The text after the command token, as the argument loop reads it:
    plain arguments separated by single spaces, or plain arguments each
    followed by a space and then the [:]-introduced trailing token. *)
Definition rest_text (l : list string) (sfx : option string) : string :=
  match sfx with
  | Some t => append (join_args l) (String ":" t)
  | None => String.concat " " l
  end.

(** A line on the wire: optional [:prefix ], the command token, and, when
    there are arguments or a trailing token, a space and the rest. *)
Definition wire (p : option string) (c : string) (l : list string)
    (sfx : option string) : string :=
  match l, sfx with
  | [], None => append (prefix_text p) c
  | _, _ => append (prefix_text p) (append c (String " " (rest_text l sfx)))
  end.

(** The [Message::prefix] that a prefix token gives. *)
Definition prefix_of (p : option string) : Outcome (option Prefix) :=
  match p with
  | None => Ok None
  | Some t => parse_prefix t
  end.

(** ** A sample command table, used to run the parser on concrete lines *)

Inductive SampleCode : Type := Nick | Join | Privmsg | Ping.

Definition sample_table (s : string) : option SampleCode :=
  if String.eqb s "NICK" then Some Nick
  else if String.eqb s "JOIN" then Some Join
  else if String.eqb s "PRIVMSG" then Some Privmsg
  else if String.eqb s "PING" then Some Ping
  else None.

Definition sample_from_str : string -> option (Code SampleCode) :=
  code_from_table sample_table.

(** How the sample table prints its known codes. *)
Definition sample_code_text (k : SampleCode) : string :=
  match k with
  | Nick => "NICK"
  | Join => "JOIN"
  | Privmsg => "PRIVMSG"
  | Ping => "PING"
  end.

Definition sample_parse := parse sample_from_str.

Example test_full :
  sample_parse ":org.prefix.cool COMMAND arg1 arg2 arg3 :suffix is pretty cool yo"
  = Ok (mkMessage (Some (PrefixServer "org.prefix.cool")) (Unknown "COMMAND")
          ["arg1"; "arg2"; "arg3"] (Some "suffix is pretty cool yo")).
Proof. reflexivity. Qed.

Example test_only_command :
  sample_parse "NICK" = Ok (mkMessage None (Known Nick) [] None).
Proof. reflexivity. Qed.

Example test_empty_message_trim : sample_parse "    " = Err EmptyMessage.
Proof. reflexivity. Qed.

Example test_only_prefix : sample_parse ":org.prefix.cool" = Err UnexpectedEnd.
Proof. reflexivity. Qed.

Example test_prefix_user :
  sample_parse ":bob!bob@bob.com COMMAND :suffix is pretty cool yo"
  = Ok (mkMessage (Some (PrefixUser (User_new "bob" "bob" "bob.com")))
          (Unknown "COMMAND") [] (Some "suffix is pretty cool yo")).
Proof. reflexivity. Qed.

Example test_trailing_space :
  sample_parse "NICK a " = Ok (mkMessage None (Known Nick) ["a"; ""] None).
Proof. reflexivity. Qed.

(** ** Predicates on byte strings used in the proofs *)

(** A string that is empty or starts with an ASCII byte. *)
Definition ascii_lead (t : string) : bool :=
  match t with EmptyString => true | String b _ => is_ascii_byte b end.

(** A string that is empty or does not start with a continuation byte. *)
Definition lead_ok (s : string) : bool :=
  match s with EmptyString => true | String b _ => negb (is_cont b) end.

(** No continuation byte right after an ASCII byte. *)
Fixpoint after_ascii_ok (s : string) : bool :=
  match s with
  | EmptyString => true
  | String b r => (negb (is_ascii_byte b) || lead_ok r) && after_ascii_ok r
  end.

(** The index of every ASCII byte, and the index just after it, are
    character boundaries. *)
Definition boundary_safe (s : string) : bool := lead_ok s && after_ascii_ok s.

(** ** Lemmas on the string operations *)

Lemma length_append (s t : string) :
  String.length (append s t) = String.length s + String.length t.
Proof. induction s as [|c s IH]; simpl; auto. Qed.

Lemma list_ascii_of_string_append (s t : string) :
  list_ascii_of_string (append s t) = list_ascii_of_string s ++ list_ascii_of_string t.
Proof. induction s as [|c s IH]; simpl; f_equal; auto. Qed.

Lemma append_empty_r (s : string) : append s EmptyString = s.
Proof. induction s as [|c s IH]; simpl; f_equal; auto. Qed.

Lemma append_assoc (s t u : string) : append s (append t u) = append (append s t) u.
Proof. induction s as [|c s IH]; simpl; f_equal; auto. Qed.

Lemma substring_0_full (s : string) : substring 0 (String.length s) s = s.
Proof. induction s as [|c s IH]; simpl; f_equal; auto. Qed.

Lemma substring_0_app (s t : string) : substring 0 (String.length s) (append s t) = s.
Proof. induction s as [|c s IH]; simpl; [destruct t|]; f_equal; auto. Qed.

Lemma substring_skip (s t : string) (m : nat) :
  substring (String.length s) m (append s t) = substring 0 m t.
Proof. induction s as [|c s IH]; simpl; auto. Qed.

Lemma find_app_none (c : ascii) (a b : string) :
  find c a = None ->
  find c (append a b) = option_map (Nat.add (String.length a)) (find c b).
Proof.
  induction a as [|c' a IH]; simpl; intros H.
  - destruct (find c b); reflexivity.
  - destruct (Ascii.eqb c c'); [discriminate|].
    destruct (find c a); [discriminate|].
    rewrite IH by reflexivity. destruct (find c b); reflexivity.
Qed.

Lemma find_here (c : ascii) (b : string) : find c (String c b) = Some 0.
Proof. simpl. rewrite Ascii.eqb_refl. reflexivity. Qed.

Lemma find_split (c : ascii) (a b : string) :
  find c a = None -> find c (append a (String c b)) = Some (String.length a).
Proof.
  intros H. rewrite (find_app_none c a _ H), find_here. simpl. f_equal. lia.
Qed.

Lemma find_some (c : ascii) (s : string) (i : nat) :
  find c s = Some i ->
  exists a b, s = append a (String c b) /\ String.length a = i /\ find c a = None.
Proof.
  revert i. induction s as [|c' s IH]; simpl; intros i H; [discriminate|].
  destruct (Ascii.eqb c c') eqn:E.
  - apply Ascii.eqb_eq in E. subst c'. injection H as <-.
    exists EmptyString, s. auto.
  - destruct (find c s) as [j|] eqn:F; [|discriminate].
    injection H as <-.
    destruct (IH j eq_refl) as (a & b & -> & <- & Ha).
    exists (String c' a), b. simpl. rewrite E, Ha. auto.
Qed.

Lemma find_append_none (c : ascii) (a b : string) :
  find c (append a b) = None -> find c a = None /\ find c b = None.
Proof.
  induction a as [|c' a IH]; simpl; intros H; [auto|].
  destruct (Ascii.eqb c c'); [discriminate|].
  destruct (find c (append a b)) eqn:F; [discriminate|].
  destruct (IH eq_refl) as [-> ->]. auto.
Qed.

Lemma slice_to_app (a t : string) : slice_to (append a t) (String.length a) = Ok a.
Proof.
  unfold slice_to. rewrite length_append.
  replace (String.length a <=? _) with true by (symmetry; apply Nat.leb_le; lia).
  rewrite substring_0_app. reflexivity.
Qed.

Lemma slice_from_app (a t : string) : slice_from (append a t) (String.length a) = Ok t.
Proof.
  unfold slice_from. rewrite length_append.
  replace (String.length a <=? _) with true by (symmetry; apply Nat.leb_le; lia).
  rewrite substring_skip.
  replace (String.length a + String.length t - String.length a)
    with (String.length t) by lia.
  rewrite substring_0_full. reflexivity.
Qed.

Lemma slice_from_sep (a b : string) (c : ascii) :
  slice_from (append a (String c b)) (String.length a + 1) = Ok b.
Proof.
  replace (String.length a + 1) with (String.length (append a (String c EmptyString)))
    by (rewrite length_append; reflexivity).
  rewrite (append_assoc a (String c EmptyString) b) at 1.
  apply slice_from_app.
Qed.

Lemma slice_from_one (c : ascii) (b : string) : slice_from (String c b) 1 = Ok b.
Proof. apply (slice_from_app (String c EmptyString) b). Qed.

Lemma slice_from_len (s : string) : slice_from s (String.length s) = Ok EmptyString.
Proof.
  rewrite <- (append_empty_r s) at 1. apply slice_from_app.
Qed.

Lemma slice_inner (c : ascii) (a t : string) :
  slice (String c (append a t)) 1 (S (String.length a)) = Ok a.
Proof.
  unfold slice. simpl. rewrite length_append.
  replace (String.length a <=? _) with true by (symmetry; apply Nat.leb_le; lia).
  simpl. rewrite Nat.sub_0_r, substring_0_app. reflexivity.
Qed.

(** ** Lemmas on UTF-8 decoding and the blank check ([str::trim]) *)

Lemma ascii_not_cont (b : ascii) : is_ascii_byte b = true -> is_cont b = false.
Proof.
  unfold is_ascii_byte, is_cont. intros H. apply N.ltb_lt in H.
  destruct (128 <=? byte_val b)%N eqn:E; [apply N.leb_le in E; lia|reflexivity].
Qed.

(** Decoding stops at an ASCII byte: what comes before it decodes alone. *)
Lemma decode_app (s t : string) :
  ascii_lead t = true -> decode (append s t) = decode s ++ decode t.
Proof.
  intros Ht.
  destruct t as [|x t']; [rewrite append_empty_r, app_nil_r; reflexivity|].
  simpl in Ht. pose proof (ascii_not_cont x Ht) as Hx.
  remember (String.length s) as n eqn:Hn. revert s Hn.
  induction n as [n IH] using lt_wf_ind. intros s Hn.
  destruct s as [|b r]; [reflexivity|].
  assert (IHr : forall r', String.length r' < String.length (String b r) ->
            decode (append r' (String x t')) = decode r' ++ decode (String x t'))
    by (intros r' Hr; apply (IH (String.length r')); [lia|reflexivity]).
  clear IH Hn.
  cbn [append decode].
  destruct (byte_val b <? 128)%N;
    [cbn [app]; f_equal; apply IHr; simpl; lia|].
  destruct (byte_val b <? 192)%N;
    [cbn [app]; f_equal; apply IHr; simpl; lia|].
  destruct (byte_val b <? 224)%N.
  { destruct r as [|c1 r1]; cbn [append].
    - rewrite Hx. reflexivity.
    - destruct (is_cont c1); cbn [app]; f_equal;
        [apply IHr|apply (IHr (String c1 r1))]; simpl; lia. }
  destruct (byte_val b <? 240)%N.
  { destruct r as [|c1 [|c2 r2]]; cbn [append].
    - destruct t' as [|y t'']; [reflexivity|]. rewrite Hx. reflexivity.
    - rewrite Hx, andb_false_r. cbn [app]. f_equal.
      apply (IHr (String c1 EmptyString)). simpl; lia.
    - destruct (is_cont c1 && is_cont c2); cbn [app]; f_equal;
        [apply IHr|apply (IHr (String c1 (String c2 r2)))]; simpl; lia. }
  destruct (byte_val b <? 248)%N.
  { destruct r as [|c1 [|c2 [|c3 r3]]]; cbn [append].
    - destruct t' as [|y [|z t'']]; [reflexivity|reflexivity|].
      rewrite Hx. reflexivity.
    - destruct t' as [|y t'']; [|rewrite Hx, andb_false_r]; cbn [app andb]; f_equal;
        apply (IHr (String c1 EmptyString)); simpl; lia.
    - rewrite Hx, andb_false_r. cbn [app]. f_equal.
      apply (IHr (String c1 (String c2 EmptyString))). simpl; lia.
    - destruct (is_cont c1 && is_cont c2 && is_cont c3); cbn [app]; f_equal;
        [apply IHr|apply (IHr (String c1 (String c2 (String c3 r3))))]; simpl; lia. }
  cbn [app]. f_equal. apply IHr. simpl. lia.
Qed.

Lemma forallb_rev {A : Type} (f : A -> bool) (l : list A) :
  forallb f (rev l) = forallb f l.
Proof.
  induction l as [|x l IH]; simpl; auto.
  rewrite forallb_app, IH. simpl. rewrite andb_true_r, andb_comm. reflexivity.
Qed.

Lemma trim_start_nil (l : list N) :
  trim_start_chars l = [] <-> forallb is_whitespace l = true.
Proof.
  induction l as [|c l IH]; simpl; [tauto|].
  destruct (is_whitespace c); simpl; [exact IH|split; discriminate].
Qed.

Lemma forallb_trim_start (l : list N) :
  forallb is_whitespace (trim_start_chars l) = forallb is_whitespace l.
Proof.
  induction l as [|c l IH]; simpl; auto.
  destruct (is_whitespace c) eqn:E; simpl; [exact IH|rewrite E; reflexivity].
Qed.

Lemma encode_char_nonempty (c : N) : exists b s, encode_char c = String b s.
Proof.
  unfold encode_char.
  destruct (c <? 128)%N; [eauto|]. destruct (c <? 2048)%N; [eauto|].
  destruct (c <? 65536)%N; eauto.
Qed.

Lemma length_encode_0 (l : list N) : String.length (encode l) = 0 <-> l = [].
Proof.
  destruct l as [|c l]; simpl; [tauto|].
  destruct (encode_char_nonempty c) as (b & s & ->). simpl. split; discriminate.
Qed.

Lemma trim_length_0 (s : string) :
  String.length (trim s) = 0 <-> forallb is_whitespace (decode s) = true.
Proof.
  unfold trim. rewrite length_encode_0, <- length_zero_iff_nil, length_rev,
    length_zero_iff_nil.
  rewrite trim_start_nil, forallb_rev, forallb_trim_start. tauto.
Qed.

(** The blank check lets a line through exactly when it has a
    non-whitespace character. *)
Lemma blank_check_false (s : string) :
  forallb is_whitespace (decode s) = false ->
  (String.length s =? 0) || (String.length (trim s) =? 0) = false.
Proof.
  intros H. apply orb_false_intro; apply Nat.eqb_neq; intros E.
  - destruct s; [discriminate|discriminate].
  - apply trim_length_0 in E. congruence.
Qed.

(** A line with an ASCII byte that is not whitespace is not blank. *)
Lemma ascii_not_blank (x y : string) (c : ascii) :
  is_ascii_byte c = true -> is_whitespace (byte_val c) = false ->
  forallb is_whitespace (decode (append x (String c y))) = false.
Proof.
  intros Ha Hw. rewrite decode_app by exact Ha. rewrite forallb_app.
  cbn [decode]. unfold is_ascii_byte in Ha. rewrite Ha. cbn [forallb].
  rewrite Hw. apply andb_false_r.
Qed.

(** ** Lemmas on [trim_right_matches("\r\n")] *)

Lemma trim_crlf_rev_spec (r : list ascii) :
  exists k, r = concat (repeat ["010"%char; "013"%char] k) ++ trim_crlf_rev r.
Proof.
  remember (List.length r) as n eqn:Hn.
  revert r Hn. induction n as [n IH] using lt_wf_ind. intros r Hn.
  destruct r as [|x [|y r']]; simpl; try (exists 0; reflexivity).
  destruct (Ascii.eqb x "010"%char) eqn:Ex; simpl;
    [|exists 0; reflexivity].
  destruct (Ascii.eqb y "013"%char) eqn:Ey; simpl; [|exists 0; reflexivity].
  apply Ascii.eqb_eq in Ex, Ey. subst x y.
  destruct (IH (List.length r') ltac:(simpl in Hn; lia) r' eq_refl) as [k Hk].
  exists (S k). simpl. rewrite <- Hk. reflexivity.
Qed.

Lemma trim_crlf_rev_head (r r' : list ascii) :
  trim_crlf_rev r <> "010"%char :: "013"%char :: r'.
Proof.
  remember (List.length r) as n eqn:Hn.
  revert r Hn. induction n as [n IH] using lt_wf_ind. intros r Hn.
  destruct r as [|x [|y r0]]; simpl; try discriminate.
  destruct (Ascii.eqb x "010"%char) eqn:Ex; simpl.
  - destruct (Ascii.eqb y "013"%char) eqn:Ey; simpl.
    + apply (IH (List.length r0)); simpl in Hn; [lia|reflexivity].
    + intros E. injection E as -> -> _. discriminate.
  - intros E. injection E as -> _ _. discriminate.
Qed.

Lemma rev_concat_crlf (k : nat) :
  rev (concat (repeat ["010"%char; "013"%char] k)) = list_ascii_of_string (crlf_times k).
Proof.
  induction k as [|k IH]; simpl; auto.
  rewrite IH. clear IH. simpl.
  induction k as [|k IH]; simpl; auto.
  rewrite IH. reflexivity.
Qed.

(** A line is its stripped form followed by [k] copies of "\r\n". *)
Lemma strip_decompose (line : string) :
  exists k, line = append (trim_right_matches_crlf line) (crlf_times k).
Proof.
  destruct (trim_crlf_rev_spec (rev (list_ascii_of_string line))) as [k Hk].
  exists k. unfold trim_right_matches_crlf.
  rewrite <- (string_of_list_ascii_of_string (crlf_times k)).
  rewrite <- (string_of_list_ascii_of_string line) at 1.
  transitivity (string_of_list_ascii
    (rev (trim_crlf_rev (rev (list_ascii_of_string line))) ++ list_ascii_of_string (crlf_times k))).
  - f_equal. rewrite <- rev_concat_crlf, <- rev_app_distr, <- Hk, rev_involutive.
    reflexivity.
  - generalize (rev (trim_crlf_rev (rev (list_ascii_of_string line)))).
    intros l. induction l; simpl; f_equal; auto.
Qed.

Lemma crlf_times_lead (k : nat) : ascii_lead (crlf_times k) = true.
Proof. destruct k; reflexivity. Qed.

Lemma crlf_times_blank (k : nat) :
  forallb is_whitespace (decode (crlf_times k)) = true.
Proof. induction k; simpl; auto. Qed.

(** A line whose stripped form has a non-whitespace character passes the
    blank check. *)
Lemma strip_not_blank (line : string) :
  forallb is_whitespace (decode (trim_right_matches_crlf line)) = false ->
  (String.length line =? 0) || (String.length (trim line) =? 0) = false.
Proof.
  intros H. apply blank_check_false.
  destruct (strip_decompose line) as [k Hk]. rewrite Hk.
  rewrite decode_app by apply crlf_times_lead. rewrite forallb_app, H. reflexivity.
Qed.

(** ** Each step of the parser: its possible outcomes *)

Lemma parse_prefix_ok (t : string) : exists p, parse_prefix t = Ok p.
Proof.
  unfold parse_prefix. destruct (find "!" t) as [p|] eqn:F; [|eauto].
  destruct (find_some _ _ _ F) as (n & r & -> & <- & _).
  rewrite slice_to_app, slice_from_sep. simpl.
  destruct (find "@" r) as [q|] eqn:G; [|eauto].
  destruct (find_some _ _ _ G) as (u & h & -> & <- & _).
  rewrite slice_to_app, slice_from_sep. simpl. eauto.
Qed.

Lemma prefix_step_cases (s : string) :
  (exists p st, prefix_step s = Ok (p, st)) \/ prefix_step s = Err UnexpectedEnd.
Proof.
  unfold prefix_step. destruct (starts_with ":" s) eqn:S; [|left; eauto].
  destruct (find " " s) as [i|] eqn:F; [|right; reflexivity].
  left. destruct s as [|c s]; [discriminate|].
  unfold starts_with in S. apply Ascii.eqb_eq in S. subst c. simpl in F.
  destruct (find " " s) as [j|] eqn:G; [|discriminate]. injection F as <-.
  destruct (find_some _ _ _ G) as (a & b & -> & <- & _).
  rewrite slice_inner.
  destruct (parse_prefix_ok a) as [p Hp]. simpl bind. rewrite Hp. simpl bind.
  change (String ":" (append a (String " " b)))
    with (append (String ":" a) (String " " b)).
  change (S (String.length a + 1)) with (String.length (String ":" a) + 1).
  rewrite slice_from_sep. simpl. eauto.
Qed.

Lemma command_step_cases (s : string) :
  (exists t st, command_step s = Ok (Some t, st) /\ String.length st < String.length s)
  \/ (command_step s = Err EmptyMessage /\ s = EmptyString).
Proof.
  unfold command_step. destruct (find " " s) as [i|] eqn:F.
  - left. destruct (find_some _ _ _ F) as (a & b & -> & <- & _).
    rewrite slice_to_app, slice_from_sep. simpl. exists a, b. split; [reflexivity|].
    rewrite length_append. simpl. lia.
  - destruct s as [|c s]; [right; auto|left]. simpl (_ =? _).
    cbv iota. rewrite slice_from_len. simpl. exists (String c s), EmptyString.
    split; [reflexivity|simpl; lia].
Qed.

Lemma args_loop_ok (fuel : nat) (state : string) (acc : list string) :
  String.length state < fuel -> exists r, args_loop fuel state acc = Ok r.
Proof.
  revert state acc. induction fuel as [|fuel IH]; intros state acc H; [lia|].
  simpl. destruct (starts_with ":" state) eqn:S.
  - destruct state as [|c st]; [discriminate|]. rewrite slice_from_one. simpl. eauto.
  - destruct (find " " state) as [i|] eqn:F; [|eauto].
    destruct (find_some _ _ _ F) as (a & b & -> & <- & _).
    rewrite slice_to_app, slice_from_sep. simpl.
    apply IH. rewrite length_append in H. simpl in H. lia.
Qed.

Lemma args_step_ok (state : string) : exists r, args_step state = Ok r.
Proof.
  unfold args_step. destruct (0 <? String.length state); [|eauto].
  apply args_loop_ok. lia.
Qed.

Lemma resolve_code_some {K : Type} (f : string -> option (Code K)) (t : string) :
  exists cd, resolve_code f (Some t) = Ok cd.
Proof. simpl. destruct (f t); eauto. Qed.

Lemma parse_body_cases {K : Type} (f : string -> option (Code K)) p (st : string) :
  (exists m, parse_body f p st = Ok m)
  \/ (parse_body f p st = Err EmptyMessage /\ st = EmptyString).
Proof.
  unfold parse_body.
  destruct (command_step_cases st) as [(t & st' & -> & _)|[-> ->]]; [left|right; auto].
  cbn [bind]. destruct (args_step_ok st') as [[as' sfx] ->]. cbn [bind].
  destruct (resolve_code_some f t) as [cd ->]. simpl. eauto.
Qed.

Lemma parse_body_nonempty {K : Type} (f : string -> option (Code K)) p (st : string) :
  st <> EmptyString -> exists m, parse_body f p st = Ok m /\ prefix m = p.
Proof.
  intros H. unfold parse_body.
  destruct (command_step_cases st) as [(t & st' & -> & _)|[_ ->]]; [|congruence].
  cbn [bind]. destruct (args_step_ok st') as [[as' sfx] ->]. cbn [bind].
  destruct (resolve_code_some f t) as [cd ->]. simpl. eauto.
Qed.

Lemma starts_with_colon_not_blank (s : string) :
  starts_with ":" s = true -> forallb is_whitespace (decode s) = false.
Proof.
  destruct s as [|c s]; [discriminate|]. unfold starts_with.
  intros E. apply Ascii.eqb_eq in E. subst c.
  exact (ascii_not_blank EmptyString s ":" eq_refl eq_refl).
Qed.

(** ** Claims *)

(** C6: a line that, after the "\r\n" strip, starts with [:] and has no
    space (a prefix with nothing after it) fails with [UnexpectedEnd]. *)
Theorem parse_prefix_only_unexpected_end {K : Type}
    (f : string -> option (Code K)) (line : string) :
  starts_with ":" (trim_right_matches_crlf line) = true ->
  find " " (trim_right_matches_crlf line) = None ->
  parse f line = Err UnexpectedEnd.
Proof.
  intros Hs Hf. unfold parse.
  rewrite (strip_not_blank line (starts_with_colon_not_blank _ Hs)).
  unfold prefix_step. rewrite Hs, Hf. reflexivity.
Qed.

Lemma parse_prefix_only_unexpected_end_witness :
  starts_with ":" (trim_right_matches_crlf ":only.a.prefix") = true /\
  find " " (trim_right_matches_crlf ":only.a.prefix") = None /\
  parse sample_from_str ":only.a.prefix" = Err UnexpectedEnd.
Proof.
  split; [vm_compute; reflexivity|]. split; [vm_compute; reflexivity|].
  apply parse_prefix_only_unexpected_end; vm_compute; reflexivity.
Defined.

(** C7: an empty line, or one made of whitespace characters only (Unicode
    [White_Space], as [str::trim] has it), fails with [EmptyMessage]. *)
Theorem parse_blank_empty_message {K : Type}
    (f : string -> option (Code K)) (line : string) :
  forallb is_whitespace (decode line) = true ->
  parse f line = Err EmptyMessage.
Proof.
  intros H. apply trim_length_0 in H. unfold parse.
  rewrite H, orb_true_r. reflexivity.
Qed.

(** ["\u{a0}"] is the two bytes C2 A0; ["\t\u{3000}\r\n"] is the bytes
    09, E3 80 80, 0D, 0A. *)
Lemma parse_blank_empty_message_witness :
  parse sample_from_str "" = Err EmptyMessage /\
  parse sample_from_str "    " = Err EmptyMessage /\
  parse sample_from_str (String "194"%char (String "160"%char EmptyString))
    = Err EmptyMessage /\
  parse sample_from_str
    (String "009"%char (String "227"%char (String "128"%char (String "128"%char crlf))))
    = Err EmptyMessage.
Proof.
  split; [|split; [|split]]; apply parse_blank_empty_message; vm_compute; reflexivity.
Defined.

(** C8: [parse_prefix] reads a token without [!] as a server name, verbatim,
    and a token [nick!user@host] (first [!], then first [@] after it) as a
    user. *)
Theorem parse_prefix_shapes (t : string) :
  (find "!" t = None -> parse_prefix t = Ok (Some (PrefixServer t))) /\
  (forall nick user host,
     t = append nick (String "!" (append user (String "@" host))) ->
     find "!" nick = None -> find "@" user = None ->
     parse_prefix t = Ok (Some (PrefixUser (User_new nick user host)))).
Proof.
  split.
  - intros H. unfold parse_prefix. rewrite H. reflexivity.
  - intros nick user host -> Hn Hu. unfold parse_prefix.
    rewrite (find_split _ _ _ Hn), slice_to_app, slice_from_sep. cbn [bind].
    rewrite (find_split _ _ _ Hu), slice_to_app, slice_from_sep. reflexivity.
Qed.

Lemma parse_prefix_shapes_witness :
  parse_prefix "irc.example.net" = Ok (Some (PrefixServer "irc.example.net")) /\
  parse_prefix "bob!bob@bob.com" = Ok (Some (PrefixUser (User_new "bob" "bob" "bob.com"))).
Proof.
  split.
  - apply (proj1 (parse_prefix_shapes "irc.example.net")). vm_compute. reflexivity.
  - apply (proj2 (parse_prefix_shapes "bob!bob@bob.com")); vm_compute; reflexivity.
Defined.

(** On byte strings [parse] returns a message or one of the three
    [ParseError] kinds: no slice is out of bounds and the argument loop
    ends. *)
Lemma parse_outcomes {K : Type} (f : string -> option (Code K)) (line : string) :
  (exists m, parse f line = Ok m) \/ parse f line = Err EmptyMessage \/
  parse f line = Err EmptyCommand \/ parse f line = Err UnexpectedEnd.
Proof.
  unfold parse. destruct (_ || _); [right; left; reflexivity|].
  destruct (prefix_step_cases (trim_right_matches_crlf line)) as [(p & st & ->)| ->];
    cbn [bind]; [|right; right; right; reflexivity].
  destruct (parse_body_cases f p st) as [[m ->]|[-> _]]; eauto.
Qed.

(** C10: [parse] never fails with [EmptyCommand]: the command step always
    sets the code or fails itself with [EmptyMessage]. *)
Theorem parse_never_empty_command {K : Type} (f : string -> option (Code K))
    (line : string) :
  parse f line <> Err EmptyCommand.
Proof.
  unfold parse. destruct (_ || _); [discriminate|].
  destruct (prefix_step_cases (trim_right_matches_crlf line)) as [(p & st & ->)| ->];
    cbn [bind]; [|discriminate].
  destruct (parse_body_cases f p st) as [[m ->]|[-> _]]; discriminate.
Qed.

(** ** Lemmas on lines of a given shape *)

Lemma prefix_step_split (t r : string) :
  find " " t = None ->
  exists p, parse_prefix t = Ok p /\
            prefix_step (String ":" (append t (String " " r))) = Ok (p, r).
Proof.
  intros Ht. destruct (parse_prefix_ok t) as [p Hp]. exists p. split; [exact Hp|].
  unfold prefix_step. simpl starts_with.
  change (find " " (String ":" (append t (String " " r))))
    with (option_map S (find " " (append t (String " " r)))).
  rewrite (find_split _ _ _ Ht). cbn [option_map].
  rewrite slice_inner. cbn [bind]. rewrite Hp. cbn [bind].
  change (String ":" (append t (String " " r)))
    with (append (String ":" t) (String " " r)).
  change (S (String.length t) + 1) with (String.length (String ":" t) + 1).
  rewrite slice_from_sep. reflexivity.
Qed.

Lemma colon_not_blank (x y : string) :
  forallb is_whitespace (decode (append x (String ":" y))) = false.
Proof. exact (ascii_not_blank x y ":" eq_refl eq_refl). Qed.

Lemma starts_with_colon_sep (a x : string) :
  starts_with ":" a = false -> starts_with ":" (append a (String " " x)) = false.
Proof. destruct a; simpl; auto. Qed.

Lemma args_loop_trailing (l : list string) (tr : string) (acc : list string) (fuel : nat) :
  Forall plain_arg l ->
  String.length (append (join_args l) (String ":" tr)) < fuel ->
  args_loop fuel (append (join_args l) (String ":" tr)) acc = Ok (acc ++ l, Some tr).
Proof.
  revert acc fuel. induction l as [|a l IH]; intros acc fuel Hl Hf;
    (destruct fuel as [|fuel]; [lia|]).
  - cbn [join_args append args_loop].
    change (starts_with ":" (String ":" tr)) with true. cbv iota.
    rewrite slice_from_one. cbn [bind]. rewrite app_nil_r. reflexivity.
  - inversion Hl as [|a' l' [Hsp Hst] Hl']. subst a' l'.
    simpl join_args. rewrite <- append_assoc. simpl append.
    cbn [args_loop]. rewrite (starts_with_colon_sep _ _ Hst).
    rewrite (find_split _ _ _ Hsp), slice_to_app, slice_from_sep. cbn [bind].
    rewrite IH; [rewrite <- app_assoc; reflexivity|exact Hl'|].
    simpl join_args in Hf. rewrite <- append_assoc in Hf.
    rewrite length_append in Hf. simpl in Hf. lia.
Qed.

Lemma args_step_trailing (l : list string) (tr : string) :
  Forall plain_arg l ->
  args_step (append (join_args l) (String ":" tr)) = Ok (l, Some tr).
Proof.
  intros Hl. unfold args_step.
  replace (0 <? _) with true
    by (symmetry; apply Nat.ltb_lt; rewrite length_append; simpl; lia).
  apply (args_loop_trailing l tr []); [exact Hl|lia].
Qed.

Lemma strip_decompose_tail (line : string) :
  exists k, list_ascii_of_string line =
    list_ascii_of_string (trim_right_matches_crlf line) ++ list_ascii_of_string (crlf_times k).
Proof.
  destruct (strip_decompose line) as [k Hk]. exists k.
  rewrite Hk at 1. apply list_ascii_of_string_append.
Qed.

Lemma strip_not_crlf_end (line u : string) :
  trim_right_matches_crlf line <> append u crlf.
Proof.
  unfold trim_right_matches_crlf. intros E.
  apply (f_equal list_ascii_of_string) in E.
  rewrite list_ascii_of_string_of_list_ascii, list_ascii_of_string_append in E.
  apply (f_equal (@rev ascii)) in E. rewrite rev_involutive, rev_app_distr in E.
  simpl in E. exact (trim_crlf_rev_head _ _ E).
Qed.

(** C1 (as the code has it): the [:]-introduced trailing token of a line
    is not an element of [args]; it is returned in the [suffix] field,
    verbatim, and [args] holds the plain arguments before it. *)
Theorem parse_trailing_in_suffix {K : Type} (f : string -> option (Code K))
    (line : string) (p : option string) (c : string) (l : list string) (tr : string) :
  match p with None => starts_with ":" c = false | Some t => find " " t = None end ->
  find " " c = None ->
  Forall plain_arg l ->
  trim_right_matches_crlf line =
    append (prefix_text p) (append c (String " " (append (join_args l) (String ":" tr)))) ->
  exists m, parse f line = Ok m /\ args m = l /\ suffix m = Some tr.
Proof.
  intros Hp Hc Hl Hline.
  set (st := append c (String " " (append (join_args l) (String ":" tr)))) in Hline.
  assert (Hb : forallb is_whitespace (decode (append (prefix_text p) st)) = false).
  { replace (append (prefix_text p) st)
      with (append (append (prefix_text p) (append c (String " " (join_args l))))
              (String ":" tr))
      by (unfold st; rewrite <- !append_assoc; reflexivity).
    apply colon_not_blank. }
  assert (Hpre : exists pr, prefix_step (append (prefix_text p) st) = Ok (pr, st)).
  { destruct p as [t|]; simpl prefix_text.
    - destruct (prefix_step_split t st Hp) as (pr & _ & E). exists pr.
      rewrite <- E. f_equal. simpl. rewrite <- append_assoc. reflexivity.
    - exists None. unfold prefix_step. simpl append.
      unfold st. rewrite (starts_with_colon_sep _ _ Hp). reflexivity. }
  destruct Hpre as [pr Hpre].
  unfold parse. rewrite strip_not_blank.
  2:{ rewrite Hline. exact Hb. }
  rewrite Hline, Hpre. cbn [bind]. unfold parse_body, command_step.
  unfold st at 1. rewrite (find_split _ _ _ Hc). unfold st.
  rewrite slice_to_app, slice_from_sep. cbn [bind].
  rewrite (args_step_trailing l tr Hl). cbn [bind].
  destruct (resolve_code_some f c) as [cd ->]. cbn [bind]. eauto.
Qed.

Lemma parse_trailing_in_suffix_witness :
  exists m, parse sample_from_str ":bob!bob@bob.com COMMAND arg1 arg2 :free text here" = Ok m
    /\ args m = ["arg1"; "arg2"] /\ suffix m = Some "free text here".
Proof.
  apply (parse_trailing_in_suffix sample_from_str _ (Some "bob!bob@bob.com") "COMMAND"
           ["arg1"; "arg2"] "free text here").
  - vm_compute. reflexivity.
  - vm_compute. reflexivity.
  - repeat constructor.
  - vm_compute. reflexivity.
Defined.

(** C1 fails as stated: on the line of the spec the trailing token is
    the [suffix], and [args] is [["arg1"; "arg2"]], not
    [["arg1"; "arg2"; "free text here"]]. *)
Lemma parse_trailing_not_in_args :
  parse sample_from_str ":bob!bob@bob.com COMMAND arg1 arg2 :free text here"
  = Ok (mkMessage (Some (PrefixUser (User_new "bob" "bob" "bob.com"))) (Unknown "COMMAND")
          ["arg1"; "arg2"] (Some "free text here")) /\
  ["arg1"; "arg2"] <> ["arg1"; "arg2"; "free text here"].
Proof. split; [vm_compute; reflexivity|discriminate]. Qed.

(** C2 (as the code has it): when nothing is left for the command token
    (the stripped line is empty, or is a prefix followed by its space and
    nothing else), [parse] fails with [EmptyMessage]. *)
Theorem parse_exhausted_empty_message {K : Type} (f : string -> option (Code K))
    (line : string) :
  (trim_right_matches_crlf line = EmptyString \/
   exists t, find " " t = None /\
             trim_right_matches_crlf line = String ":" (append t (String " " EmptyString))) ->
  parse f line = Err EmptyMessage.
Proof.
  intros [H|(t & Ht & H)].
  - destruct (strip_decompose line) as [k Hk]. rewrite H in Hk. simpl in Hk.
    assert (Hw := crlf_times_blank k). rewrite <- Hk in Hw.
    apply trim_length_0 in Hw. unfold parse. rewrite Hw, orb_true_r. reflexivity.
  - unfold parse. rewrite strip_not_blank.
    2:{ rewrite H. reflexivity. }
    rewrite H. destruct (prefix_step_split t EmptyString Ht) as (p & _ & ->).
    reflexivity.
Qed.

Lemma parse_exhausted_empty_message_witness :
  parse sample_from_str ":prefix " = Err EmptyMessage.
Proof.
  apply parse_exhausted_empty_message. right. exists "prefix".
  split; vm_compute; reflexivity.
Defined.

(** C2 fails as stated: [":prefix "] leaves nothing for the command token,
    and [parse] fails with [EmptyMessage], not [EmptyCommand]. *)
Lemma parse_exhausted_not_empty_command :
  parse sample_from_str ":prefix " = Err EmptyMessage /\
  parse sample_from_str ":prefix " <> Err EmptyCommand.
Proof. split; vm_compute; [reflexivity|discriminate]. Qed.

(** C3 (as the code has it): the strip removes every trailing repetition of
    "\r\n" and nothing else: the line is its stripped form followed by [k]
    copies of "\r\n", and the stripped form does not end in "\r\n". *)
Theorem strip_removes_all_trailing_crlf (line : string) :
  exists k, line = append (trim_right_matches_crlf line) (crlf_times k) /\
            ~ (exists u, trim_right_matches_crlf line = append u crlf).
Proof.
  destruct (strip_decompose line) as [k Hk]. exists k. split; [exact Hk|].
  intros [u Hu]. exact (strip_not_crlf_end line u Hu).
Qed.

(** C3 fails as stated: a line ending in two "\r\n" loses both; the
    working state does not end in "\r\n", and the last argument of
    ["NICK a\r\n\r\n"] is ["a"]. *)
Lemma strip_two_crlf :
  trim_right_matches_crlf (append "NICK" (append crlf crlf)) = "NICK" /\
  ~ (exists u, "NICK" = append u crlf) /\
  parse sample_from_str (append "NICK a" (append crlf crlf))
  = Ok (mkMessage None (Known Nick) ["a"] None).
Proof.
  split; [vm_compute; reflexivity|]. split; [|vm_compute; reflexivity].
  intros [u Hu]. destruct u as [|a [|b [|c [|d u]]]]; simpl in Hu; try discriminate.
  injection Hu as _ _ _ _ Hu. destruct u; discriminate.
Qed.

(** C4: a prefix token [nick!garbage] with no [@] after its first [!] is no
    error: the message has no prefix, and the rest of the line is parsed as
    on a line without prefix (command, arguments, suffix); when the rest is
    not empty the parse succeeds. *)
Theorem parse_ambiguous_prefix_dropped {K : Type} (f : string -> option (Code K))
    (line nick garbage rest : string) :
  find "!" nick = None -> find "@" garbage = None ->
  find " " (append nick (String "!" garbage)) = None ->
  rest <> EmptyString ->
  trim_right_matches_crlf line =
    String ":" (append (append nick (String "!" garbage)) (String " " rest)) ->
  parse f line = parse_body f None rest /\
  exists m, parse f line = Ok m /\ prefix m = None.
Proof.
  intros Hn Hg Hsp Hr Hline.
  assert (Hpp : parse_prefix (append nick (String "!" garbage)) = Ok None).
  { unfold parse_prefix.
    rewrite (find_split _ _ _ Hn), slice_to_app, slice_from_sep. cbn [bind].
    rewrite Hg. reflexivity. }
  destruct (prefix_step_split _ rest Hsp) as (p & Hp & Hstep).
  rewrite Hpp in Hp. injection Hp as <-.
  assert (Heq : parse f line = parse_body f None rest).
  { unfold parse. rewrite strip_not_blank by (rewrite Hline; reflexivity).
    rewrite Hline, Hstep. reflexivity. }
  split; [exact Heq|]. rewrite Heq. exact (parse_body_nonempty f None rest Hr).
Qed.

Lemma parse_ambiguous_prefix_dropped_witness :
  parse sample_from_str ":nick!garbage COMMAND arg"
  = parse_body sample_from_str None "COMMAND arg" /\
  exists m, parse sample_from_str ":nick!garbage COMMAND arg" = Ok m /\ prefix m = None.
Proof.
  apply (parse_ambiguous_prefix_dropped sample_from_str _ "nick" "garbage" "COMMAND arg");
    try (vm_compute; reflexivity). discriminate.
Defined.

(** ** Inversion of the steps: what a successful step has read *)

Lemma starts_with_app_l (c : ascii) (a x : string) :
  starts_with c (append a x) = false -> starts_with c a = false.
Proof. destruct a; simpl; auto. Qed.

Lemma prefix_step_inv (s : string) (p : option Prefix) (st : string) :
  prefix_step s = Ok (p, st) ->
  (starts_with ":" s = false /\ p = None /\ st = s) \/
  (exists t, find " " t = None /\ parse_prefix t = Ok p /\
             s = String ":" (append t (String " " st))).
Proof.
  unfold prefix_step. destruct (starts_with ":" s) eqn:S.
  2:{ intros E. injection E as <- <-. left. auto. }
  destruct s as [|c s]; [discriminate|].
  unfold starts_with in S. apply Ascii.eqb_eq in S. subst c. simpl find.
  destruct (find " " s) as [j|] eqn:G; [|discriminate].
  destruct (find_some _ _ _ G) as (a & b & -> & <- & Ha).
  rewrite slice_inner. cbn [bind].
  destruct (parse_prefix a) as [pa| | |] eqn:Hpa; cbn [bind]; try discriminate.
  change (String ":" (append a (String " " b)))
    with (append (String ":" a) (String " " b)).
  change (S (String.length a) + 1) with (String.length (String ":" a) + 1).
  rewrite slice_from_sep. cbn [bind]. intros E. injection E as <- <-.
  right. exists a. auto.
Qed.

Lemma command_step_inv (st : string) (c : option string) (st' : string) :
  command_step st = Ok (c, st') ->
  exists t, c = Some t /\ find " " t = None /\
    ((st = t /\ st' = EmptyString /\ t <> EmptyString) \/
     st = append t (String " " st')).
Proof.
  unfold command_step. destruct (find " " st) as [i|] eqn:F.
  - destruct (find_some _ _ _ F) as (a & b & -> & <- & Ha).
    rewrite slice_to_app, slice_from_sep. cbn [bind]. intros E. injection E as <- <-.
    exists a. auto.
  - destruct st as [|x st]; [discriminate|]. cbv iota.
    change (String.length (String x st) =? 0) with false. cbv iota.
    rewrite slice_from_len. cbn [bind]. intros E. injection E as <- <-.
    exists (String x st). split; [reflexivity|]. split; [exact F|].
    left. split; [reflexivity|]. split; [reflexivity|discriminate].
Qed.

Lemma args_loop_inv (fuel : nat) (st : string) (acc l : list string) (sfx : option string) :
  args_loop fuel st acc = Ok (l, sfx) ->
  exists l', l = acc ++ l' /\ Forall plain_arg l' /\ st = rest_text l' sfx /\
             (sfx = None -> l' <> []).
Proof.
  revert st acc. induction fuel as [|fuel IH]; intros st acc H; [discriminate|].
  cbn [args_loop] in H. destruct (starts_with ":" st) eqn:S.
  - destruct st as [|x st]; [discriminate|].
    unfold starts_with in S. apply Ascii.eqb_eq in S. subst x.
    rewrite slice_from_one in H. cbn [bind] in H. injection H as <- <-.
    exists []. rewrite app_nil_r. repeat split; auto. discriminate.
  - destruct (find " " st) as [i|] eqn:F.
    + destruct (find_some _ _ _ F) as (a & b & -> & <- & Ha).
      rewrite slice_to_app, slice_from_sep in H. cbn [bind] in H.
      destruct (IH _ _ H) as (l'' & -> & Hl'' & Hb & Hne).
      exists (a :: l''). rewrite <- app_assoc. split; [reflexivity|].
      split; [constructor; [split; [exact Ha|exact (starts_with_app_l _ _ _ S)]|exact Hl'']|].
      split; [|discriminate].
      destruct sfx as [t|]; simpl rest_text in *.
      * rewrite Hb, <- append_assoc. reflexivity.
      * rewrite Hb. destruct l'' as [|y l'']; [exfalso; apply Hne; reflexivity|].
        reflexivity.
    + injection H as <- <-. exists [st]. repeat split; auto.
      * repeat constructor; assumption.
      * discriminate.
Qed.

Lemma args_step_inv (st : string) (l : list string) (sfx : option string) :
  args_step st = Ok (l, sfx) -> Forall plain_arg l /\ st = rest_text l sfx.
Proof.
  unfold args_step. destruct (0 <? String.length st) eqn:E.
  - intros H. destruct (args_loop_inv _ _ _ _ _ H) as (l' & -> & Hl & Hst & _).
    simpl. auto.
  - intros H. injection H as <- <-. split; [constructor|].
    destruct st; [reflexivity|discriminate].
Qed.

Lemma parse_body_inv {K : Type} (f : string -> option (Code K)) p (st : string)
    (m : Message K) :
  parse_body f p st = Ok m ->
  prefix m = p /\ Forall plain_arg (args m) /\
  exists c, find " " c = None /\ resolve_code f (Some c) = Ok (code m) /\
    ((st = c /\ args m = [] /\ suffix m = None /\ c <> EmptyString) \/
     st = append c (String " " (rest_text (args m) (suffix m)))).
Proof.
  unfold parse_body. destruct (command_step st) as [[c st']| | |] eqn:Hc;
    cbn [bind]; try discriminate.
  destruct (command_step_inv _ _ _ Hc) as (t & -> & Ht & Hshape).
  destruct (args_step st') as [[l sfx]| | |] eqn:Ha; cbn [bind]; try discriminate.
  destruct (args_step_inv _ _ _ Ha) as [Hl Hst].
  destruct (resolve_code_some f t) as [cd Hcd]. rewrite Hcd. cbn [bind].
  intros E. injection E as <-. simpl. split; [reflexivity|]. split; [exact Hl|].
  exists t. split; [exact Ht|]. split; [exact Hcd|].
  destruct Hshape as [(-> & -> & Hne)| ->].
  - left. unfold args_step in Ha. simpl in Ha. injection Ha as <- <-. auto.
  - right. rewrite <- Hst. reflexivity.
Qed.

Lemma parse_ok_inv {K : Type} (f : string -> option (Code K)) (line : string)
    (m : Message K) :
  parse f line = Ok m ->
  exists p st, prefix_step (trim_right_matches_crlf line) = Ok (p, st) /\
               parse_body f p st = Ok m.
Proof.
  unfold parse. destruct (_ || _); [discriminate|].
  destruct (prefix_step (trim_right_matches_crlf line)) as [[p st]| | |];
    cbn [bind]; try discriminate.
  intros H. eauto.
Qed.

(** The guard of [parse] holds exactly on the lines made of whitespace. *)
Lemma blank_guard (s : string) :
  (String.length s =? 0) || (String.length (trim s) =? 0)
  = forallb is_whitespace (decode s).
Proof.
  destruct (forallb is_whitespace (decode s)) eqn:E.
  - apply trim_length_0 in E. rewrite E, orb_true_r. reflexivity.
  - apply blank_check_false. exact E.
Qed.

Lemma strip_append_crlf (line : string) :
  trim_right_matches_crlf (append line crlf) = trim_right_matches_crlf line.
Proof.
  unfold trim_right_matches_crlf. rewrite list_ascii_of_string_append, rev_app_distr.
  reflexivity.
Qed.

(** ** Valid UTF-8 and the character boundaries *)

Lemma cont_not_ascii (b : ascii) : is_cont b = true -> is_ascii_byte b = false.
Proof.
  unfold is_cont, is_ascii_byte. intros H. apply andb_prop in H as [H _].
  apply N.leb_le in H. apply N.ltb_ge. lia.
Qed.

Lemma range_not_ascii (lo hi : N) (b : ascii) :
  (128 <= lo)%N -> in_range lo hi b = true -> is_ascii_byte b = false.
Proof.
  unfold in_range, is_ascii_byte. intros Hlo H. apply andb_prop in H as [H _].
  apply N.leb_le in H. apply N.ltb_ge. lia.
Qed.

Lemma range_not_cont (lo hi : N) (b : ascii) :
  (192 <= lo)%N -> in_range lo hi b = true -> is_cont b = false.
Proof.
  unfold in_range, is_cont. intros Hlo H. apply andb_prop in H as [H _].
  apply N.leb_le in H. destruct (128 <=? byte_val b)%N; [|reflexivity].
  apply N.ltb_ge. lia.
Qed.

Lemma second3_not_ascii (b c : ascii) : second3 b c = true -> is_ascii_byte c = false.
Proof.
  unfold second3. destruct (byte_val b =? 224)%N; [apply range_not_ascii; lia|].
  destruct (byte_val b =? 237)%N; [apply range_not_ascii; lia|apply cont_not_ascii].
Qed.

Lemma second4_not_ascii (b c : ascii) : second4 b c = true -> is_ascii_byte c = false.
Proof.
  unfold second4. destruct (byte_val b =? 240)%N; [apply range_not_ascii; lia|].
  destruct (byte_val b =? 244)%N; [apply range_not_ascii; lia|apply cont_not_ascii].
Qed.

Lemma not_ascii_after (b : ascii) (r : string) :
  is_ascii_byte b = false -> after_ascii_ok (String b r) = after_ascii_ok r.
Proof. intros H. simpl. rewrite H. reflexivity. Qed.

(** In valid UTF-8 an ASCII byte never precedes a continuation byte. *)
Lemma valid_boundary_safe (s : string) : utf8_valid s = true -> boundary_safe s = true.
Proof.
  remember (String.length s) as n eqn:Hn. revert s Hn.
  induction n as [n IH] using lt_wf_ind. intros s Hn H.
  destruct s as [|b r]; [reflexivity|].
  assert (IHr : forall r', String.length r' < String.length (String b r) ->
            utf8_valid r' = true -> boundary_safe r' = true)
    by (intros r' Hr; apply (IH (String.length r')); [lia|reflexivity]).
  clear IH Hn. unfold boundary_safe in *. cbn [utf8_valid] in H.
  destruct (byte_val b <? 128)%N eqn:E1.
  { assert (Ha : is_ascii_byte b = true) by exact E1.
    destruct (andb_prop _ _ (IHr r ltac:(simpl; lia) H))  as [Hl Ha'].
    simpl. rewrite (ascii_not_cont b Ha), Ha, Hl, Ha'. reflexivity. }
  assert (Hna : is_ascii_byte b = false) by exact E1.
  simpl lead_ok. rewrite (not_ascii_after b r Hna).
  destruct (in_range 194 223 b) eqn:E2.
  { rewrite (range_not_cont 194 223 b ltac:(lia) E2). simpl negb. cbn [andb].
    destruct r as [|c1 r1]; [discriminate|].
    apply andb_prop in H as [H1 H2].
    rewrite (not_ascii_after c1 r1 (cont_not_ascii c1 H1)).
    destruct (andb_prop _ _ (IHr r1 ltac:(simpl; lia) H2))  as [_ Hr]. exact Hr. }
  destruct (in_range 224 239 b) eqn:E3.
  { rewrite (range_not_cont 224 239 b ltac:(lia) E3). simpl negb. cbn [andb].
    destruct r as [|c1 [|c2 r2]]; try discriminate.
    apply andb_prop in H as [H H3]. apply andb_prop in H as [H1 H2].
    rewrite (not_ascii_after c1 _ (second3_not_ascii b c1 H1)).
    rewrite (not_ascii_after c2 r2 (cont_not_ascii c2 H2)).
    destruct (andb_prop _ _ (IHr r2 ltac:(simpl; lia) H3))  as [_ Hr]. exact Hr. }
  destruct (in_range 240 244 b) eqn:E4; [|discriminate].
  rewrite (range_not_cont 240 244 b ltac:(lia) E4). simpl negb. cbn [andb].
  destruct r as [|c1 [|c2 [|c3 r3]]]; try discriminate.
  apply andb_prop in H as [H H4]. apply andb_prop in H as [H H3].
  apply andb_prop in H as [H1 H2].
  rewrite (not_ascii_after c1 _ (second4_not_ascii b c1 H1)).
  rewrite (not_ascii_after c2 _ (cont_not_ascii c2 H2)).
  rewrite (not_ascii_after c3 r3 (cont_not_ascii c3 H3)).
  destruct (andb_prop _ _ (IHr r3 ltac:(simpl; lia) H4))  as [_ Hr]. exact Hr.
Qed.

Lemma lead_ok_app (a t : string) : lead_ok (append a t) = true -> lead_ok a = true.
Proof. destruct a; simpl; auto. Qed.

Lemma after_ascii_ok_prefix (a t : string) :
  after_ascii_ok (append a t) = true -> after_ascii_ok a = true.
Proof.
  induction a as [|b a IH]; [reflexivity|]. simpl. intros H.
  apply andb_prop in H as [H1 H2]. rewrite (IH H2), andb_true_r.
  destruct (is_ascii_byte b); [|reflexivity]. simpl in *. exact (lead_ok_app a t H1).
Qed.

Lemma after_ascii_ok_suffix (a t : string) :
  after_ascii_ok (append a t) = true -> after_ascii_ok t = true.
Proof.
  induction a as [|b a IH]; [auto|]. simpl. intros H.
  apply andb_prop in H as [_ H]. exact (IH H).
Qed.

Lemma boundary_safe_prefix (a t : string) :
  boundary_safe (append a t) = true -> boundary_safe a = true.
Proof.
  unfold boundary_safe. intros H. apply andb_prop in H as [H1 H2].
  rewrite (lead_ok_app a t H1). exact (after_ascii_ok_prefix a t H2).
Qed.

Lemma boundary_safe_after (a b : string) (x : ascii) :
  is_ascii_byte x = true ->
  boundary_safe (append a (String x b)) = true -> boundary_safe b = true.
Proof.
  unfold boundary_safe. intros Hx H. apply andb_prop in H as [_ H].
  apply after_ascii_ok_suffix in H. simpl in H. rewrite Hx in H. exact H.
Qed.

Lemma boundary_safe_lead (s : string) : boundary_safe s = true -> lead_ok s = true.
Proof. unfold boundary_safe. intros H. apply andb_prop in H as [H _]. exact H. Qed.

Lemma get_app (a t : string) : String.get (String.length a) (append a t) = String.get 0 t.
Proof. induction a as [|b a IH]; [reflexivity|exact IH]. Qed.

Lemma is_char_boundary_app (a t : string) :
  lead_ok t = true -> is_char_boundary (append a t) (String.length a) = true.
Proof.
  intros H. unfold is_char_boundary. destruct (String.length a =? 0); [reflexivity|].
  rewrite get_app. destruct t as [|b t].
  - rewrite append_empty_r. apply Nat.eqb_refl.
  - exact H.
Qed.

Lemma is_char_boundary_sep (a b : string) (x : ascii) :
  lead_ok b = true ->
  is_char_boundary (append a (String x b)) (String.length a + 1) = true.
Proof.
  intros H.
  replace (String.length a + 1) with (String.length (append a (String x EmptyString)))
    by (rewrite length_append; reflexivity).
  change (append a (String x b)) with (append a (append (String x EmptyString) b)).
  rewrite (append_assoc a (String x EmptyString) b).
  exact (is_char_boundary_app _ b H).
Qed.

Lemma is_char_boundary_len (s : string) : is_char_boundary s (String.length s) = true.
Proof. rewrite <- (append_empty_r s) at 1. apply is_char_boundary_app. reflexivity. Qed.

(** ** The [str] slices agree with the byte slices at character boundaries *)

Lemma slice_from_str (s : string) (i : nat) :
  is_char_boundary s i = true -> slice_from (SL:=str_slicing) s i = slice_from s i.
Proof. intros H. unfold slice_from. simpl char_boundary. rewrite H. reflexivity. Qed.

Lemma slice_to_str (s : string) (j : nat) :
  is_char_boundary s j = true -> slice_to (SL:=str_slicing) s j = slice_to s j.
Proof. intros H. unfold slice_to. simpl char_boundary. rewrite H. reflexivity. Qed.

Lemma slice_str (s : string) (i j : nat) :
  is_char_boundary s i = true -> is_char_boundary s j = true ->
  slice (SL:=str_slicing) s i j = slice s i j.
Proof. intros Hi Hj. unfold slice. simpl char_boundary. rewrite Hi, Hj. reflexivity. Qed.

Lemma parse_prefix_str (t : string) :
  boundary_safe t = true -> parse_prefix (SL:=str_slicing) t = parse_prefix t.
Proof.
  intros Hb. unfold parse_prefix. destruct (find "!" t) as [p|] eqn:F; [|reflexivity].
  destruct (find_some _ _ _ F) as (n & r & -> & <- & _).
  pose proof (boundary_safe_after n r "!" eq_refl Hb) as Hr.
  rewrite slice_to_str by (apply is_char_boundary_app; reflexivity).
  rewrite slice_from_str by (apply is_char_boundary_sep, boundary_safe_lead, Hr).
  rewrite slice_to_app, slice_from_sep. cbn [bind].
  destruct (find "@" r) as [q|] eqn:G; [|reflexivity].
  destruct (find_some _ _ _ G) as (u & h & -> & <- & _).
  pose proof (boundary_safe_after u h "@" eq_refl Hr) as Hh.
  rewrite slice_to_str by (apply is_char_boundary_app; reflexivity).
  rewrite slice_from_str by (apply is_char_boundary_sep, boundary_safe_lead, Hh).
  reflexivity.
Qed.

Lemma prefix_step_str (s : string) :
  boundary_safe s = true -> prefix_step (SL:=str_slicing) s = prefix_step s.
Proof.
  intros Hb. unfold prefix_step. destruct (starts_with ":" s) eqn:S; [|reflexivity].
  destruct (find " " s) as [i|] eqn:F; [|reflexivity].
  destruct s as [|c s]; [discriminate|].
  unfold starts_with in S. apply Ascii.eqb_eq in S. subst c. simpl in F.
  destruct (find " " s) as [j|] eqn:G; [|discriminate]. injection F as <-.
  destruct (find_some _ _ _ G) as (a & b & -> & <- & _).
  pose proof (boundary_safe_after EmptyString _ ":" eq_refl Hb) as Hab.
  pose proof (boundary_safe_after a b " " eq_refl Hab) as Hbb.
  rewrite slice_str.
  2:{ apply (is_char_boundary_app (String ":" EmptyString)), boundary_safe_lead, Hab. }
  2:{ apply (is_char_boundary_app (String ":" a) (String " " b)). reflexivity. }
  rewrite slice_inner. cbn [bind].
  rewrite parse_prefix_str by exact (boundary_safe_prefix _ _ Hab).
  change (String ":" (append a (String " " b)))
    with (append (String ":" a) (String " " b)).
  change (S (String.length a) + 1) with (String.length (String ":" a) + 1).
  rewrite slice_from_str by (apply is_char_boundary_sep, boundary_safe_lead, Hbb).
  reflexivity.
Qed.

Lemma command_step_str (s : string) :
  boundary_safe s = true -> command_step (SL:=str_slicing) s = command_step s.
Proof.
  intros Hb. unfold command_step. destruct (find " " s) as [i|] eqn:F.
  - destruct (find_some _ _ _ F) as (a & b & -> & <- & _).
    rewrite slice_to_str by (apply is_char_boundary_app; reflexivity).
    rewrite slice_from_str
      by (apply is_char_boundary_sep, boundary_safe_lead, (boundary_safe_after a b " " eq_refl Hb)).
    reflexivity.
  - rewrite slice_from_str by apply is_char_boundary_len. reflexivity.
Qed.

Lemma args_loop_str (fuel : nat) (st : string) (acc : list string) :
  boundary_safe st = true -> args_loop (SL:=str_slicing) fuel st acc = args_loop fuel st acc.
Proof.
  revert st acc. induction fuel as [|fuel IH]; intros st acc Hb; [reflexivity|].
  cbn [args_loop]. destruct (starts_with ":" st) eqn:S.
  - destruct st as [|c st]; [discriminate|].
    unfold starts_with in S. apply Ascii.eqb_eq in S. subst c.
    rewrite slice_from_str; [reflexivity|].
    apply (is_char_boundary_app (String ":" EmptyString)), boundary_safe_lead.
    exact (boundary_safe_after EmptyString st ":" eq_refl Hb).
  - destruct (find " " st) as [i|] eqn:F; [|reflexivity].
    destruct (find_some _ _ _ F) as (a & b & -> & <- & _).
    pose proof (boundary_safe_after a b " " eq_refl Hb) as Hbb.
    rewrite slice_to_str by (apply is_char_boundary_app; reflexivity).
    rewrite slice_from_str by (apply is_char_boundary_sep, boundary_safe_lead, Hbb).
    rewrite slice_to_app, slice_from_sep. cbn [bind].
    apply IH. exact Hbb.
Qed.

Lemma args_step_str (st : string) :
  boundary_safe st = true -> args_step (SL:=str_slicing) st = args_step st.
Proof.
  intros Hb. unfold args_step. destruct (0 <? String.length st); [|reflexivity].
  apply args_loop_str. exact Hb.
Qed.

Lemma parse_body_str {K : Type} (f : string -> option (Code K)) p (st : string) :
  boundary_safe st = true -> parse_body (SL:=str_slicing) f p st = parse_body f p st.
Proof.
  intros Hb. unfold parse_body. rewrite command_step_str by exact Hb.
  destruct (command_step st) as [[c st']| | |] eqn:Hc; cbn [bind]; try reflexivity.
  destruct (command_step_inv _ _ _ Hc) as (t & _ & _ & [(_ & -> & _)| ->]).
  - reflexivity.
  - rewrite args_step_str by exact (boundary_safe_after t st' " " eq_refl Hb).
    reflexivity.
Qed.

Lemma strip_boundary_safe (line : string) :
  boundary_safe line = true -> boundary_safe (trim_right_matches_crlf line) = true.
Proof.
  intros H. destruct (strip_decompose line) as [k Hk]. rewrite Hk in H.
  exact (boundary_safe_prefix _ _ H).
Qed.

(** On valid UTF-8, the only input a [str] can hold, the [str] semantics of
    the slices gives the same results as the byte semantics: no slice of
    [parse] cuts a character. *)
Lemma parse_str_bytes {K : Type} (f : string -> option (Code K)) (line : string) :
  utf8_valid line = true -> parse (SL:=str_slicing) f line = parse f line.
Proof.
  intros Hv. apply valid_boundary_safe, strip_boundary_safe in Hv.
  unfold parse. destruct (_ || _); [reflexivity|]. cbv zeta.
  rewrite prefix_step_str by exact Hv.
  destruct (prefix_step (trim_right_matches_crlf line)) as [[p st]| | |] eqn:Hp;
    cbn [bind]; try reflexivity.
  apply parse_body_str.
  destruct (prefix_step_inv _ _ _ Hp) as [(_ & _ & ->)|(t & _ & _ & Hs)]; [exact Hv|].
  rewrite Hs in Hv. exact (boundary_safe_after (String ":" t) st " " eq_refl Hv).
Qed.

(** C9: [parse] on a Rust [str] (valid UTF-8, every slice checked for its
    bounds and for character boundaries) is total and does not panic: it
    returns a message or one of the three [ParseError] kinds. *)
Theorem parse_total {K : Type} (f : string -> option (Code K)) (line : string) :
  utf8_valid line = true ->
  (exists m, parse (SL:=str_slicing) f line = Ok m) \/
  parse (SL:=str_slicing) f line = Err EmptyMessage \/
  parse (SL:=str_slicing) f line = Err EmptyCommand \/
  parse (SL:=str_slicing) f line = Err UnexpectedEnd.
Proof.
  intros Hv. rewrite (parse_str_bytes f line Hv). apply parse_outcomes.
Qed.

(** ["\u{e9}"] is the two bytes C3 A9; in [":\u{e9}!u@h PING \u{e9} :\u{e9}"]
    a two-byte character follows a [:], a space and [:] again. *)
Lemma parse_total_witness :
  let e := String "195"%char (String "169"%char EmptyString) in
  let line := append ":" (append e (append "!u@h PING " (append e (append " :" e)))) in
  utf8_valid line = true /\
  ((exists m, parse (SL:=str_slicing) sample_from_str line = Ok m) \/
   parse (SL:=str_slicing) sample_from_str line = Err EmptyMessage \/
   parse (SL:=str_slicing) sample_from_str line = Err EmptyCommand \/
   parse (SL:=str_slicing) sample_from_str line = Err UnexpectedEnd).
Proof.
  intros e line. split; [vm_compute; reflexivity|].
  apply parse_total. vm_compute. reflexivity.
Defined.

(** The boundary check is why valid UTF-8 is needed: after an ASCII space,
    the byte 80 is a continuation byte, and the [str] slice there panics
    (no [str] holds these bytes). *)
Example parse_str_invalid_panics :
  utf8_valid (String "A"%char (String " "%char (String "128"%char EmptyString))) = false /\
  parse (SL:=str_slicing) sample_from_str
    (String "A"%char (String " "%char (String "128"%char EmptyString))) = Panic.
Proof. split; vm_compute; reflexivity. Qed.

(** On valid UTF-8 the [str] semantics of [parse] and the byte semantics,
    for which the other theorems are stated, give the same result. *)
Theorem parse_utf8_agrees {K : Type} (f : string -> option (Code K)) (line : string) :
  utf8_valid line = true -> parse (SL:=str_slicing) f line = parse f line.
Proof. exact (parse_str_bytes f line). Qed.

Lemma parse_utf8_agrees_witness :
  let e := String "195"%char (String "169"%char EmptyString) in
  let line := append ":" (append e (append "!u@h PING " (append e (append " :" e)))) in
  utf8_valid line = true /\
  parse (SL:=str_slicing) sample_from_str line = parse sample_from_str line.
Proof.
  intros e line. split; [vm_compute; reflexivity|].
  apply parse_utf8_agrees. vm_compute. reflexivity.
Defined.

(** C5: in every successful parse, the command token of the line (the text
    after the optional [:prefix ] up to the first space) that the table does
    not recognise becomes [Unknown] of exactly that token, which prints back
    as the token. *)
Theorem parse_unknown_code_verbatim {K : Type} (table : string -> option K)
    (known_text : K -> string) (line : string) (m : Message K) :
  parse (code_from_table table) line = Ok m ->
  exists tp c,
    match tp with
    | None => starts_with ":" (trim_right_matches_crlf line) = false
    | Some t => find " " t = None
    end /\
    find " " c = None /\
    (trim_right_matches_crlf line = append (prefix_text tp) c \/
     exists rest,
       trim_right_matches_crlf line = append (prefix_text tp) (append c (String " " rest))) /\
    (table c = None -> code m = Unknown c /\ code_to_string known_text (code m) = c).
Proof.
  intros H. destruct (parse_ok_inv _ line m H) as (p & st & Hp & Hb).
  destruct (parse_body_inv _ p st m Hb) as (_ & _ & c & Hc & Hcd & Hshape).
  assert (Hcode : table c = None -> code m = Unknown c /\ code_to_string known_text (code m) = c).
  { intros Ht. cbn [resolve_code] in Hcd. unfold code_from_table in Hcd.
    rewrite Ht in Hcd. injection Hcd as <-. split; reflexivity. }
  destruct (prefix_step_inv _ _ _ Hp) as [(Hs & _ & Hst)|(t & Ht & _ & Hst)].
  - exists None, c. split; [exact Hs|]. split; [exact Hc|].
    split; [|exact Hcode]. rewrite <- Hst.
    destruct Hshape as [(-> & _)| ->]; [left; reflexivity|right; eexists; reflexivity].
  - exists (Some t), c. split; [exact Ht|]. split; [exact Hc|]. split; [|exact Hcode].
    rewrite Hst. destruct Hshape as [(-> & _)| ->]; [left|right; eexists];
      simpl; f_equal; rewrite <- append_assoc; reflexivity.
Qed.

Lemma parse_unknown_code_verbatim_witness :
  exists tp c,
    match tp with
    | None => starts_with ":" (trim_right_matches_crlf ":bob!bob@bob.com COMMAND arg1 :x y") = false
    | Some t => find " " t = None
    end /\
    find " " c = None /\
    (trim_right_matches_crlf ":bob!bob@bob.com COMMAND arg1 :x y" = append (prefix_text tp) c \/
     exists rest,
       trim_right_matches_crlf ":bob!bob@bob.com COMMAND arg1 :x y"
       = append (prefix_text tp) (append c (String " " rest))) /\
    (sample_table c = None ->
     code (@mkMessage SampleCode (Some (PrefixUser (User_new "bob" "bob" "bob.com"))) (Unknown "COMMAND")
             ["arg1"] (Some "x y")) = Unknown c /\
     code_to_string sample_code_text
       (code (@mkMessage SampleCode (Some (PrefixUser (User_new "bob" "bob" "bob.com")))
                (Unknown "COMMAND") ["arg1"] (Some "x y"))) = c).
Proof.
  exact (parse_unknown_code_verbatim sample_table sample_code_text
           ":bob!bob@bob.com COMMAND arg1 :x y"
           (mkMessage (Some (PrefixUser (User_new "bob" "bob" "bob.com"))) (Unknown "COMMAND")
              ["arg1"] (Some "x y")) ltac:(vm_compute; reflexivity)).
Defined.

(** ** Further properties of [Message::parse] and [parse_prefix] *)

(** [parse] loses nothing of the line: the stripped line is the prefix
    token (if any), the command token, and the arguments and suffix joined
    back with single spaces and [:], up to a space that ends the line after
    the command token. *)
Theorem parse_lossless {K : Type} (f : string -> option (Code K)) (line : string)
    (m : Message K) :
  parse f line = Ok m ->
  exists tp c,
    prefix_of tp = Ok (prefix m) /\
    match tp with
    | None => starts_with ":" (trim_right_matches_crlf line) = false
    | Some t => find " " t = None
    end /\
    find " " c = None /\ resolve_code f (Some c) = Ok (code m) /\
    ((trim_right_matches_crlf line = append (prefix_text tp) c /\
      args m = [] /\ suffix m = None) \/
     trim_right_matches_crlf line =
       append (prefix_text tp) (append c (String " " (rest_text (args m) (suffix m))))).
Proof.
  intros H. destruct (parse_ok_inv f line m H) as (p & st & Hp & Hb).
  destruct (parse_body_inv f p st m Hb) as (Hpm & _ & c & Hc & Hcd & Hshape).
  destruct (prefix_step_inv _ _ _ Hp) as [(Hs & -> & ->)|(t & Ht & Hpt & Hst)].
  - exists None, c. rewrite Hpm.
    split; [reflexivity|]. split; [exact Hs|]. split; [exact Hc|]. split; [exact Hcd|].
    destruct Hshape as [(Heq & Ha & Hsf & _)| Heq]; [left; auto|right; auto].
  - exists (Some t), c. rewrite Hpm, Hst.
    split; [exact Hpt|]. split; [exact Ht|]. split; [exact Hc|]. split; [exact Hcd|].
    destruct Hshape as [(-> & Ha & Hsf & _)| ->].
    + left. split; [|auto]. simpl. f_equal. rewrite <- append_assoc. reflexivity.
    + right. simpl. f_equal. rewrite <- append_assoc. reflexivity.
Qed.

Lemma parse_lossless_witness :
  exists tp c,
    prefix_of tp = Ok (Some (PrefixServer "irc.example.net")) /\
    match tp with
    | None => starts_with ":" (trim_right_matches_crlf ":irc.example.net NICK a  b :x y") = false
    | Some t => find " " t = None
    end /\
    find " " c = None /\ resolve_code sample_from_str (Some c) = Ok (Known Nick) /\
    ((trim_right_matches_crlf ":irc.example.net NICK a  b :x y" = append (prefix_text tp) c /\
      ["a"; ""; "b"] = [] /\ Some "x y" = None) \/
     trim_right_matches_crlf ":irc.example.net NICK a  b :x y" =
       append (prefix_text tp) (append c (String " " (rest_text ["a"; ""; "b"] (Some "x y"))))).
Proof.
  exact (parse_lossless sample_from_str ":irc.example.net NICK a  b :x y"
           (mkMessage (Some (PrefixServer "irc.example.net")) (Known Nick)
              ["a"; ""; "b"] (Some "x y")) ltac:(vm_compute; reflexivity)).
Defined.

(** Every argument of a parsed message is a token without space that does
    not start with [:]. *)
Theorem parse_args_plain {K : Type} (f : string -> option (Code K)) (line : string)
    (m : Message K) :
  parse f line = Ok m -> Forall plain_arg (args m).
Proof.
  intros H. destruct (parse_ok_inv f line m H) as (p & st & _ & Hb).
  exact (proj1 (proj2 (parse_body_inv f p st m Hb))).
Qed.

Lemma parse_args_plain_witness :
  Forall plain_arg
    (args (mkMessage None (Known Nick) ["a"; ""; "b"] None : Message SampleCode)).
Proof.
  apply (parse_args_plain sample_from_str "NICK a  b"). vm_compute. reflexivity.
Defined.

(** One "\r\n" more at the end of a line changes nothing to its parse. *)
Theorem parse_crlf_terminated {K : Type} (f : string -> option (Code K)) (line : string) :
  parse f (append line crlf) = parse f line.
Proof.
  unfold parse. rewrite !blank_guard, decode_app by reflexivity. rewrite forallb_app.
  change (forallb is_whitespace (decode crlf)) with true.
  rewrite andb_true_r, strip_append_crlf. reflexivity.
Qed.

(** [parse_prefix] read backwards: a server name is the whole token, which
    has no [!]; a user is [nick!user@host] split at the first [!] and the
    first [@] after it; no prefix comes from [nick!garbage] without [@]
    after the first [!]. *)
Theorem parse_prefix_inverse (t : string) :
  (forall n, parse_prefix t = Ok (Some (PrefixServer n)) -> n = t /\ find "!" t = None) /\
  (forall u, parse_prefix t = Ok (Some (PrefixUser u)) ->
     t = append (nickname u) (String "!" (append (username u) (String "@" (hostname u))))
     /\ find "!" (nickname u) = None /\ find "@" (username u) = None) /\
  (parse_prefix t = Ok None ->
     exists n g, t = append n (String "!" g) /\ find "!" n = None /\ find "@" g = None).
Proof.
  unfold parse_prefix. destruct (find "!" t) as [p|] eqn:F.
  - destruct (find_some _ _ _ F) as (n & r & -> & <- & Hn).
    rewrite slice_to_app, slice_from_sep. cbn [bind].
    destruct (find "@" r) as [q|] eqn:G.
    + destruct (find_some _ _ _ G) as (u & h & -> & <- & Hu).
      rewrite slice_to_app, slice_from_sep. cbn [bind].
      split; [intros n' E; discriminate|]. split; [|intros E; discriminate].
      intros u' E. injection E as <-. simpl. auto.
    + split; [intros n' E; discriminate|]. split; [intros u' E; discriminate|].
      intros _. exists n, r. auto.
  - split; [intros n E; injection E as <-; auto|].
    split; [intros u E; discriminate|intros E; discriminate].
Qed.

Lemma parse_prefix_inverse_witness :
  ("bob!bob@bob.com" = append "bob" (String "!" (append "bob" (String "@" "bob.com")))
   /\ find "!" "bob" = None /\ find "@" "bob" = None) /\
  ("irc.example.net" = "irc.example.net" /\ find "!" "irc.example.net" = None).
Proof.
  split.
  - exact (proj1 (proj2 (parse_prefix_inverse "bob!bob@bob.com"))
             (User_new "bob" "bob" "bob.com") ltac:(vm_compute; reflexivity)).
  - apply (proj1 (parse_prefix_inverse "irc.example.net")). reflexivity.
Defined.

Lemma args_loop_plain (l acc : list string) (fuel : nat) :
  l <> [] -> Forall plain_arg l -> String.length (String.concat " " l) < fuel ->
  args_loop fuel (String.concat " " l) acc = Ok (acc ++ l, None).
Proof.
  revert acc fuel. induction l as [|a l IH]; intros acc fuel Hne Hl Hf; [congruence|].
  destruct fuel as [|fuel]; [lia|].
  inversion Hl as [|a' l' [Hsp Hst] Hl']. subst a' l'.
  destruct l as [|b l].
  - cbn [String.concat args_loop]. rewrite Hst, Hsp. reflexivity.
  - change (String.concat " " (a :: b :: l))
      with (append a (String " " (String.concat " " (b :: l)))) in *.
    cbn [args_loop]. rewrite (starts_with_colon_sep _ _ Hst).
    rewrite (find_split _ _ _ Hsp), slice_to_app, slice_from_sep. cbn [bind].
    rewrite IH; [rewrite <- app_assoc; reflexivity|discriminate|exact Hl'|].
    rewrite length_append in Hf. cbn [String.length] in Hf. lia.
Qed.

Lemma args_step_rest (l : list string) (sfx : option string) :
  Forall plain_arg l -> (sfx = None -> l <> [] /\ l <> [""]) ->
  args_step (rest_text l sfx) = Ok (l, sfx).
Proof.
  intros Hl Hne. destruct sfx as [t|].
  - apply args_step_trailing. exact Hl.
  - destruct (Hne eq_refl) as [H1 H2]. simpl rest_text. unfold args_step.
    replace (0 <? _) with true.
    + apply args_loop_plain; [exact H1|exact Hl|lia].
    + symmetry. apply Nat.ltb_lt.
      destruct l as [|a [|b l]]; [congruence| |].
      * destruct a; [congruence|simpl; lia].
      * change (String.concat " " (a :: b :: l))
          with (append a (String " " (String.concat " " (b :: l)))).
        rewrite length_append. simpl. lia.
Qed.

Lemma wire_some (t c : string) (l : list string) (sfx : option string) :
  wire (Some t) c l sfx = String ":" (append t (String " " (wire None c l sfx))).
Proof. destruct l, sfx; simpl; rewrite <- append_assoc; reflexivity. Qed.

Lemma wire_none_starts (c : string) (l : list string) (sfx : option string) :
  starts_with ":" c = false -> starts_with ":" (wire None c l sfx) = false.
Proof.
  intros H. destruct l, sfx; simpl; try exact H; apply starts_with_colon_sep; exact H.
Qed.

Lemma parse_body_wire {K : Type} (f : string -> option (Code K)) pr
    (c : string) (l : list string) (sfx : option string) :
  find " " c = None -> Forall plain_arg l ->
  (l = [] -> sfx = None -> c <> EmptyString) -> (sfx = None -> l <> [""]) ->
  parse_body f pr (wire None c l sfx)
  = (let? cd := resolve_code f (Some c) in Ok (mkMessage pr cd l sfx)).
Proof.
  intros Hc Hl Hne1 Hne2. unfold parse_body.
  destruct l as [|a l]; [destruct sfx as [t|]|].
  - change (wire None c [] (Some t))
      with (append c (String " " (rest_text [] (Some t)))).
    unfold command_step. rewrite (find_split _ _ _ Hc).
    rewrite slice_to_app, slice_from_sep. cbn [bind].
    rewrite (args_step_rest [] (Some t)); [reflexivity|constructor|discriminate].
  - simpl wire. unfold command_step. rewrite Hc.
    destruct c as [|x c]; [exfalso; exact (Hne1 eq_refl eq_refl eq_refl)|].
    cbv iota. change (String.length (String x c) =? 0) with false. cbv iota.
    rewrite slice_from_len. reflexivity.
  - change (wire None c (a :: l) sfx)
      with (append c (String " " (rest_text (a :: l) sfx))).
    unfold command_step. rewrite (find_split _ _ _ Hc).
    rewrite slice_to_app, slice_from_sep. cbn [bind].
    rewrite args_step_rest; [reflexivity|exact Hl|].
    intros E. split; [discriminate|exact (Hne2 E)].
Qed.

(** Round trip with the wire format: a line made of an optional prefix
    token, a command token, plain arguments separated by single spaces and
    an optional [:]-introduced trailing token parses to exactly those parts;
    the prefix is what [parse_prefix] makes of its token and the code what
    the table makes of the command token. *)
Theorem parse_wire {K : Type} (f : string -> option (Code K)) (line : string)
    (p : option string) (c : string) (l : list string) (sfx : option string) :
  match p with None => starts_with ":" c = false | Some t => find " " t = None end ->
  find " " c = None -> Forall plain_arg l ->
  (l = [] -> sfx = None -> c <> EmptyString) -> (sfx = None -> l <> [""]) ->
  forallb is_whitespace (decode line) = false ->
  trim_right_matches_crlf line = wire p c l sfx ->
  parse f line =
    (let? pr := prefix_of p in
     let? cd := resolve_code f (Some c) in
     Ok (mkMessage pr cd l sfx)).
Proof.
  intros Hp Hc Hl Hne1 Hne2 Hb Hline. unfold parse.
  rewrite blank_guard, Hb. cbv iota. rewrite Hline.
  destruct p as [t|].
  - rewrite wire_some. destruct (prefix_step_split t (wire None c l sfx) Hp)
      as (pr & Hpr & ->).
    cbn [bind]. rewrite parse_body_wire by assumption.
    simpl prefix_of. rewrite Hpr. reflexivity.
  - unfold prefix_step. rewrite (wire_none_starts c l sfx Hp). cbn [bind].
    apply parse_body_wire; assumption.
Qed.

Lemma parse_wire_witness :
  parse sample_from_str (append ":bob!bob@bob.com PRIVMSG #chan :hello  world" crlf)
  = Ok (mkMessage (Some (PrefixUser (User_new "bob" "bob" "bob.com"))) (Known Privmsg)
          ["#chan"] (Some "hello  world")).
Proof.
  rewrite (parse_wire sample_from_str _ (Some "bob!bob@bob.com") "PRIVMSG" ["#chan"]
             (Some "hello  world")); try (vm_compute; reflexivity).
  - apply Forall_cons; [split; vm_compute; reflexivity|constructor].
  - intros E. discriminate E.
  - intros E. discriminate E.
Defined.

Lemma prefix_step_err (s : string) (e : ParseError) :
  prefix_step s = Err e -> starts_with ":" s = true /\ find " " s = None.
Proof.
  unfold prefix_step. destruct (starts_with ":" s) eqn:S; [|discriminate].
  destruct (find " " s) as [i|] eqn:F; [|auto].
  destruct s as [|c s]; [discriminate|].
  unfold starts_with in S. apply Ascii.eqb_eq in S. subst c. simpl find in F.
  destruct (find " " s) as [j|] eqn:G; [|discriminate]. injection F as <-.
  destruct (find_some _ _ _ G) as (a & b & -> & <- & _).
  rewrite slice_inner. destruct (parse_prefix_ok a) as [p Hp]. cbn [bind]. rewrite Hp.
  cbn [bind].
  change (String ":" (append a (String " " b)))
    with (append (String ":" a) (String " " b)).
  change (S (String.length a) + 1) with (String.length (String ":" a) + 1).
  rewrite slice_from_sep. discriminate.
Qed.

(** A line whose stripped form starts with a space has an empty command
    token: no prefix, the code is what the table makes of [""], and the
    arguments and suffix are read from the text after that space. *)
Theorem parse_leading_space_empty_command {K : Type} (f : string -> option (Code K))
    (line rest : string) :
  forallb is_whitespace (decode line) = false ->
  trim_right_matches_crlf line = String " " rest ->
  exists m, parse f line = Ok m /\ prefix m = None /\
            resolve_code f (Some EmptyString) = Ok (code m) /\
            args_step rest = Ok (args m, suffix m).
Proof.
  intros Hb Hline. unfold parse. rewrite blank_guard, Hb. cbv iota.
  rewrite Hline. unfold prefix_step. cbn [starts_with].
  change (Ascii.eqb ":" " ") with false. cbv iota. cbn [bind].
  unfold parse_body, command_step. cbn [find]. change (Ascii.eqb " " " ") with true.
  cbv iota.
  change (String " " rest) with (append EmptyString (String " " rest)).
  change 0 with (String.length EmptyString).
  rewrite slice_to_app, slice_from_sep. cbn [bind].
  destruct (args_step_ok rest) as [[l sfx] Ha]. rewrite Ha. cbn [bind].
  destruct (resolve_code_some f EmptyString) as [cd Hcd]. rewrite Hcd. cbn [bind].
  eexists. split; [reflexivity|]. simpl. auto.
Qed.

Lemma parse_leading_space_empty_command_witness :
  exists m, parse sample_from_str " NICK a" = Ok m /\ prefix m = None /\
            resolve_code sample_from_str (Some EmptyString) = Ok (code m) /\
            args_step "NICK a" = Ok (args m, suffix m).
Proof.
  apply parse_leading_space_empty_command; vm_compute; reflexivity.
Defined.

(** [parse] fails with [EmptyMessage] exactly on the lines made of
    whitespace and on the lines whose stripped form is a prefix token
    followed by one space and nothing else. *)
Theorem parse_empty_message_iff {K : Type} (f : string -> option (Code K)) (line : string) :
  parse f line = Err EmptyMessage <->
  forallb is_whitespace (decode line) = true \/
  exists t, find " " t = None /\
            trim_right_matches_crlf line = String ":" (append t (String " " EmptyString)).
Proof.
  split.
  - unfold parse. rewrite blank_guard.
    destruct (forallb is_whitespace (decode line)) eqn:Hb; [auto|].
    cbv beta iota zeta. intros H. right.
    destruct (prefix_step_cases (trim_right_matches_crlf line)) as [(p & st & Hp)|Hp];
      rewrite Hp in H; cbn [bind] in H; [|discriminate].
    destruct (parse_body_cases f p st) as [[m Hm]|[_ ->]];
      [rewrite Hm in H; discriminate|].
    destruct (prefix_step_inv _ _ _ Hp) as [(_ & _ & Hs)|(t & Ht & _ & Hs)].
    + exfalso. destruct (strip_decompose line) as [k Hk].
      rewrite <- Hs in Hk. simpl in Hk.
      assert (Hw := crlf_times_blank k). rewrite <- Hk in Hw. congruence.
    + exists t. auto.
  - intros [H|(t & Ht & H)].
    + unfold parse. rewrite blank_guard, H. reflexivity.
    + unfold parse. rewrite strip_not_blank by (rewrite H; reflexivity).
      rewrite H. destruct (prefix_step_split t EmptyString Ht) as (p & _ & ->).
      reflexivity.
Qed.

Lemma parse_empty_message_iff_witness :
  parse sample_from_str ":irc.example.net " = Err EmptyMessage.
Proof.
  apply (proj2 (parse_empty_message_iff sample_from_str ":irc.example.net ")).
  right. exists "irc.example.net". split; vm_compute; reflexivity.
Defined.

(** [parse] fails with [UnexpectedEnd] exactly on the lines whose stripped
    form starts with [:] and has no space. *)
Theorem parse_unexpected_end_iff {K : Type} (f : string -> option (Code K)) (line : string) :
  parse f line = Err UnexpectedEnd <->
  starts_with ":" (trim_right_matches_crlf line) = true /\
  find " " (trim_right_matches_crlf line) = None.
Proof.
  split.
  - unfold parse. destruct (_ || _); [discriminate|].
    destruct (prefix_step (trim_right_matches_crlf line)) as [[p st]|e| |] eqn:Hp;
      cbn [bind]; try discriminate.
    + destruct (parse_body_cases f p st) as [[m ->]|[-> _]]; discriminate.
    + intros _. exact (prefix_step_err _ _ Hp).
  - intros [Hs Hf]. unfold parse.
    rewrite (strip_not_blank line (starts_with_colon_not_blank _ Hs)).
    unfold prefix_step. rewrite Hs, Hf. reflexivity.
Qed.

Lemma parse_unexpected_end_iff_witness :
  parse sample_from_str (append ":irc.example.net" crlf) = Err UnexpectedEnd.
Proof.
  apply (proj2 (parse_unexpected_end_iff sample_from_str _)).
  split; vm_compute; reflexivity.
Defined.

(** [parse] succeeds exactly on the lines that are not made of whitespace,
    whose stripped form is not a [:]-token without space, and is not a
    prefix token followed by one space and nothing else. *)
Theorem parse_ok_iff {K : Type} (f : string -> option (Code K)) (line : string) :
  (exists m, parse f line = Ok m) <->
  forallb is_whitespace (decode line) = false /\
  ~ (starts_with ":" (trim_right_matches_crlf line) = true /\
     find " " (trim_right_matches_crlf line) = None) /\
  ~ (exists t, find " " t = None /\
               trim_right_matches_crlf line = String ":" (append t (String " " EmptyString))).
Proof.
  split.
  - intros [m Hm]. unfold parse in Hm. rewrite blank_guard in Hm.
    destruct (forallb is_whitespace (decode line)) eqn:Hb;
      [discriminate|]. cbv beta iota zeta in Hm.
    split; [reflexivity|]. split.
    + intros [Hs Hf]. unfold prefix_step in Hm. rewrite Hs, Hf in Hm. discriminate.
    + intros (t & Ht & Hl). rewrite Hl in Hm.
      destruct (prefix_step_split t EmptyString Ht) as (p & _ & Hp).
      rewrite Hp in Hm. discriminate.
  - intros (Hb & Hue & Hex). unfold parse. rewrite blank_guard, Hb.
    cbv beta iota zeta.
    destruct (prefix_step_cases (trim_right_matches_crlf line)) as [(p & st & Hp)|Hp].
    + rewrite Hp. cbn [bind].
      destruct (parse_body_cases f p st) as [[m ->]|[_ ->]]; [eauto|].
      exfalso. destruct (prefix_step_inv _ _ _ Hp) as [(_ & _ & Hs)|(t & Ht & _ & Hs)].
      * destruct (strip_decompose line) as [k Hk].
        rewrite <- Hs in Hk. simpl in Hk.
        assert (Hw := crlf_times_blank k). rewrite <- Hk in Hw. congruence.
      * apply Hex. exists t. auto.
    + exfalso. apply Hue. exact (prefix_step_err _ _ Hp).
Qed.

Lemma parse_ok_iff_witness :
  exists m, parse sample_from_str "NICK" = Ok m.
Proof.
  apply (proj2 (parse_ok_iff sample_from_str "NICK")).
  split; [vm_compute; reflexivity|]. split.
  - vm_compute. intros [H _]. discriminate H.
  - intros (t & _ & H). vm_compute in H. discriminate H.
Defined.
